(** * Neural-network teaching demo: stepper, training lab and couplet service

    A shallow embedding of the logic of the application:
    - [App] (tab selection, step index, the step catalogue [STEPS_DATA]),
    - [NetworkVisualizer] (the previous / next buttons),
    - [TrainingLab] (the simulated training run and its timers),
    - [generateCouplet] (the REST call to the text service and its
      degraded result).

    Modelling conventions.
    - A JavaScript [number] is a real number ([R]); the decimal literals of
      the source ([0.1], [0.05], ...) are the exact decimals. IEEE rounding
      and NaN are outside the model. For the accuracy of a sample this
      means: it is the rounding to three decimals of the exact difference
      [1 - currentLoss], while the source rounds that difference to a double
      first, which moves the recorded accuracy by one thousandth when the
      difference lies within one unit in the last place of a tie. The
      theorems on the range of the recorded accuracy and on its relation to
      the recorded loss are stated so that they hold in both readings.
    - [Math.random()] reads the next element of a stream [rand : nat -> R];
      the state remembers how many draws were consumed.
    - React state setters are applied atomically per event (one handler or
      one timer callback runs to its end, then the component re-renders),
      so a handler reads the state that the previous event left.
    - [window.setTimeout] / [clearTimeout] act on an explicit table of
      pending callbacks; time itself is abstracted to "some pending timer
      fires".
    - A call of the service is described by the outcome it has once it
      settles. A call that never settles is a request that stays in flight:
      the event [GenerationSettles] does not occur. *)

From Stdlib Require Import Reals Lra Lia ZArith List String Ascii Bool.
From Stdlib Require Import Zfloor DecimalString.
Import ListNotations.

Set Warnings "-register-all".

Local Open Scope string_scope.
Local Open Scope R_scope.

(** ** Numbers *)

Module Num.

(** [Math.round]: nearest integer, a tie goes towards plus infinity. *)
Definition Math_round (x : R) : Z := Zfloor (x + / 2).

(** [Math.max(0, Math.min(1, x))]. *)
Definition clamp01 (x : R) : R := Rmax 0 (Rmin 1 x).

(** The integer [n] of [Number.prototype.toFixed]: for a non-negative [x]
    the [n] with [n / 1000] closest to [x], the larger one on a tie. *)
Definition nearest_milli (x : R) : Z := Zfloor (x * 1000 + / 2).

(** [parseFloat(x.toFixed(3))]. [toFixed] works on the absolute value and
    puts the sign back. *)
Definition toFixed3 (x : R) : R :=
  if Rlt_dec x 0 then - (IZR (nearest_milli (- x)) / 1000)
  else IZR (nearest_milli x) / 1000.

(** Decimal rendering of an integer inside a template literal. *)
Definition string_of_Z (z : Z) : string := NilZero.string_of_int (Z.to_int z).

End Num.

(** ** types.ts *)

Inductive ModelType := fnn | rnn | lstm.

Definition ModelType_eqb (a b : ModelType) : bool :=
  match a, b with
  | fnn, fnn | rnn, rnn | lstm, lstm => true
  | _, _ => false
  end.

(** [modelType.toUpperCase()]. *)
Definition toUpperCase (m : ModelType) : string :=
  match m with fnn => "FNN" | rnn => "RNN" | lstm => "LSTM" end.

Record TrainingMetric := mkMetric {
  epoch : Z;
  loss : R;
  accuracy : R
}.

Inductive View := folded | unfolded.

Record StepInfo := mkStep {
  title : string;
  desc : string;
  formula : option string;
  formulaDesc : option string;
  highlightIds : list string;
  view : option View;
  fadeIds : option (list string)
}.

Record TrainingParams := mkParams {
  epochs : Z;
  learningRate : R
}.

(** A JavaScript value as [response.json()] and [JSON.parse] produce it,
    plus [undefined] for absent properties. *)
Inductive JsVal :=
| JUndefined
| JNull
| JBool (b : bool)
| JNum (x : R)
| JStr (s : string)
| JArr (items : list JsVal)
| JObj (fields : list (string * JsVal)).

(** [lower] and [explanation] are whatever the parsed JSON holds when it
    is truthy, hence a [JsVal]; [qualityScore] is an optional field. *)
Record CoupletResult := mkResult {
  upper : string;
  lower : JsVal;
  explanation : JsVal;
  qualityScore : option Z
}.

(** ** services/geminiService.ts *)

Module Gemini.

(** The ASCII double quote, for the places where a template literal of the
    source contains one. *)
Definition dquote : string := String "034"%char EmptyString.

(** A template literal is kept as the list of its parts: literal text and
    the substitutions whose rendering the model leaves symbolic. *)
Inductive Piece :=
| Lit (s : string)
| Str (s : string)      (* a string substituted as it is *)
| Len (s : string)      (* [s.length] *)
| Fixed3 (x : R).       (* [x.toFixed(3)] *)

Definition Prompt := list Piece.

Definition MODEL_NAME : string := "gemini-2.5-flash".

Definition API_URL : string :=
  "https://generativelanguage.googleapis.com/v1beta/models/" ++ MODEL_NAME
  ++ ":generateContent".

(** An [Error] object; every value thrown on the paths of this service is
    one (the service's own [new Error], the platform's [TypeError] and
    [SyntaxError]). *)
Record JsError := mkError { message : string }.

Record TrainingContext := mkContext { ctx_loss : R; ctx_epochs : Z }.

Record Request := mkRequest {
  req_url : string;
  req_method : string;
  req_contentType : string;
  req_systemInstruction : Prompt;
  req_userRole : string;
  req_userText : Prompt;
  req_responseMimeType : string;
  req_temperature : R
}.

(** What [fetch] resolves to: the flags the code reads and the outcomes of
    the two body readers. *)
Record Response := mkResponse {
  ok : bool;
  resp_status : Z;
  resp_text : JsError + string;     (* [await response.text()] *)
  resp_json : JsError + JsVal       (* [await response.json()] *)
}.

(** The collaborators of the service. *)
Record World := mkWorld {
  API_KEY : option string;                 (* [process.env.API_KEY] *)
  fetch : Request -> JsError + Response;   (* [inl]: the promise rejects *)
  JSON_parse : JsVal -> JsError + JsVal    (* [JSON.parse(text)] *)
}.

(** Settled state of the promise an [async] function returns. *)
Inductive Settled (A : Type) :=
| Fulfilled (a : A)
| Rejected (reason : JsError).
Arguments Fulfilled {A} a.
Arguments Rejected {A} reason.

(** *** A small exception monad for the body of the [try] block *)

Definition Exc (A : Type) : Type := JsError + A.
Definition ret {A} (a : A) : Exc A := inr a.
Definition throw {A} (msg : string) : Exc A := inl (mkError msg).
Definition bind {A B} (c : Exc A) (k : A -> Exc B) : Exc B :=
  match c with inl e => inl e | inr a => k a end.

Notation "x <- c ;; k" := (bind c (fun x => k))
  (at level 61, c at next level, right associativity).

(** *** JavaScript values *)

Definition nullish (v : JsVal) : bool :=
  match v with JUndefined | JNull => true | _ => false end.

(** [!!v]. *)
Definition truthy (v : JsVal) : bool :=
  match v with
  | JUndefined | JNull => false
  | JBool b => b
  | JNum x => if Req_dec_T x 0 then false else true
  | JStr s => negb (String.eqb s EmptyString)
  | JArr _ | JObj _ => true
  end.

(** [a || b]. *)
Definition or_else (a b : JsVal) : JsVal := if truthy a then a else b.

Fixpoint lookup (k : string) (fields : list (string * JsVal)) : JsVal :=
  match fields with
  | [] => JUndefined
  | (k', v) :: rest => if String.eqb k k' then v else lookup k rest
  end.

(** [v.k] for the property names the service reads ([candidates],
    [content], [parts], [text], [lower], [explanation]): a [TypeError] on
    [null] and [undefined], the field of an object, [undefined] on
    primitives and arrays, which have no such property. *)
Definition prop (k : string) (v : JsVal) : Exc JsVal :=
  match v with
  | JUndefined => throw ("Cannot read properties of undefined (reading '" ++ k ++ "')")
  | JNull => throw ("Cannot read properties of null (reading '" ++ k ++ "')")
  | JObj fields => ret (lookup k fields)
  | _ => ret JUndefined
  end.

(** [v[0]]. *)
Definition index0 (v : JsVal) : Exc JsVal :=
  match v with
  | JUndefined => throw "Cannot read properties of undefined (reading '0')"
  | JNull => throw "Cannot read properties of null (reading '0')"
  | JArr items => ret (hd JUndefined items)
  | JObj fields => ret (lookup "0" fields)
  | JStr (String c _) => ret (JStr (String c EmptyString))
  | _ => ret JUndefined
  end.

(** [v?.access]: [undefined] when [v] is nullish. *)
Definition opt (access : JsVal -> Exc JsVal) (v : JsVal) : Exc JsVal :=
  if nullish v then ret JUndefined else access v.

(** [data.candidates?.[0]?.content?.parts?.[0]?.text]. *)
Definition extract_text (data : JsVal) : Exc JsVal :=
  c <- prop "candidates" data ;;
  c0 <- opt index0 c ;;
  co <- opt (prop "content") c0 ;;
  ps <- opt (prop "parts") co ;;
  p0 <- opt index0 ps ;;
  opt (prop "text") p0.

(** *** The prompt *)

(** [trainingContext?.loss ?? 0.1]. *)
Definition context_loss (trainingContext : option TrainingContext) : R :=
  match trainingContext with
  | Some c => ctx_loss c
  | None => 0.1
  end.

Definition isConverged (loss : R) : bool := if Rlt_dec loss 0.2 then true else false.
Definition isUnderfitted (loss : R) : bool := if Rlt_dec 0.4 loss then true else false.

Definition status_label (loss : R) : string :=
  if isUnderfitted loss then "欠拟合 (High Loss, 训练不足)"
  else if isConverged loss then "收敛良好 (Low Loss, 训练充分)"
  else "部分训练 (训练一般)".

Definition header (upper : string) (modelType : ModelType) (loss : R) : Prompt :=
  [ Lit "你是一个神经网络模拟器，正在模拟一个针对“杭州宋城景区”训练的中文对联生成模型。
    
    用户输入上联: ";
    Lit dquote;
    Str upper;
    Lit dquote;
    Lit "
    字数: ";
    Len upper;
    Lit "
    
    当前模型配置状态:
    - 架构类型: ";
    Lit (toUpperCase modelType);
    Lit "
    - 训练状态: ";
    Lit (status_label loss);
    Lit "
    - 最终 Loss 值: ";
    Fixed3 loss;
    Lit "
    
    请根据【架构类型】和【训练状态】生成对应的下联和解释（解释必须用中文）。
    " ].

Definition underfitted_block (loss : R) : Prompt :=
  [ Lit "
      【通用表现 - 训练不足】：
      1. 生成一个下联，内容要有明显瑕疵。
      2. 瑕疵可以是：平仄完全不对、词性不工整、或者用词非常直白毫无文采。
      3. 【解释】：指出Loss较高（";
    Fixed3 loss;
    Lit "），网络参数尚未优化，输出混乱。
      " ].

Definition converged_block (loss : R) : Prompt :=
  [ Lit "
      【通用表现 - 训练充分】：
      1. 原则上生成高质量下联。
      2. 【解释】：指出Loss较低（";
    Fixed3 loss;
    Lit "），模型已收敛。
      " ].

Definition partial_block : Prompt :=
  [ Lit "
      【通用表现 - 训练一般】：
      1. 生成合格下联，但不够惊艳。
      2. 【解释】：处于训练中期。
      " ].

Definition quality_block (loss : R) : Prompt :=
  if isUnderfitted loss then underfitted_block loss
  else if isConverged loss then converged_block loss
  else partial_block.

Definition fnn_block : Prompt :=
  [ Lit "
      
【FNN 架构特性模拟】：
      FNN 没有时间序列概念，它单独处理每个位置的词。
      - 如果是长句（>7字）：请生成一个“词不达意”的下联。虽然每个词单独看可能和上联对应位置有关，但连起来读非常生硬，缺乏连贯性。
      - 解释：强调 FNN 缺乏“序列记忆”，只关注了局部词语的映射，忽略了整句的通顺。
      " ].

Definition rnn_block : Prompt :=
  [ Lit "
      
【RNN 架构特性模拟】：
      RNN 擅长序列，但存在严重的“梯度消失”问题。
      - 关键指令：如果上联较长（>7字），且训练状态不是极度完美，请务必模拟“梯度消失”！
      - 具体表现：生成一个【虎头蛇尾】或【前言不搭后语】的下联。即：下联的后半部分（最近的时间步）可能对应得还不错，但前半部分（较远的时间步）对应得很差，或者忘了上联开头的意境。
      - 解释：必须明确提到“梯度消失”现象。解释说：因为句子较长，RNN 在反向传播时梯度消失，导致模型“忘记”了上联开头的输入信息，只根据最近的词生成了结尾。
      " ].

Definition lstm_block : Prompt :=
  [ Lit "
      
【LSTM 架构特性模拟】：
      LSTM 引入了细胞状态（Cell State）和门控机制，完美解决了梯度消失。
      - 关键指令：即使是长句（>7字），只要训练Loss不极高，都要生成非常工整、意境深远、前后呼应的下联。
      - 表现：体现出对长距离依赖的完美捕捉。
      - 解释：解释中强调 LSTM 的“长短期记忆”能力和“门控机制”，指出它成功记住了长距离的上下文信息，避免了 RNN 的梯度消失问题。
      " ].

Definition architecture_block (modelType : ModelType) : Prompt :=
  match modelType with
  | fnn => fnn_block
  | rnn => rnn_block
  | lstm => lstm_block
  end.

Definition systemPrompt (upper : string) (modelType : ModelType) (loss : R) : Prompt :=
  (header upper modelType loss ++ quality_block loss ++ architecture_block modelType)%list.

Definition userText (upper : string) : Prompt :=
  [ Lit "请基于上述设定，为上联“";
    Str upper;
    Lit "”生成下联。请严格返回 JSON 格式: { ";
    Lit dquote;
    Lit "lower";
    Lit dquote;
    Lit ": ";
    Lit dquote;
    Lit "下联内容";
    Lit dquote;
    Lit ", ";
    Lit dquote;
    Lit "explanation";
    Lit dquote;
    Lit ": ";
    Lit dquote;
    Lit "中文解释内容";
    Lit dquote;
    Lit " }" ].

Definition request (apiKey upper : string) (modelType : ModelType) (loss : R) : Request :=
  {| req_url := API_URL ++ "?key=" ++ apiKey;
     req_method := "POST";
     req_contentType := "application/json";
     req_systemInstruction := systemPrompt upper modelType loss;
     req_userRole := "user";
     req_userText := userText upper;
     req_responseMimeType := "application/json";
     req_temperature := 0.7 |}.

(** *** generateCouplet *)

(** [Math.max(0, Math.min(100, Math.round((1 - loss) * 100)))]. *)
Definition quality_of_loss (loss : R) : Z :=
  Z.max 0 (Z.min 100 (Num.Math_round ((1 - loss) * 100))).

(** The [try] block. *)
Definition try_body (w : World) (upper : string) (modelType : ModelType)
    (trainingContext : option TrainingContext) : Exc CoupletResult :=
  let loss := context_loss trainingContext in
  apiKey <- match API_KEY w with
            | Some k => if String.eqb k EmptyString then throw "API Key is missing" else ret k
            | None => throw "API Key is missing"
            end ;;
  response <- fetch w (request apiKey upper modelType loss) ;;
  _ <- (if negb (ok response) then
          errorText <- resp_text response ;;
          throw ("Gemini API Error: " ++ Num.string_of_Z (resp_status response)
                 ++ " - " ++ errorText)
        else ret tt) ;;
  data <- resp_json response ;;
  text <- extract_text data ;;
  _ <- (if negb (truthy text) then throw "No response from Gemini API" else ret tt) ;;
  result <- JSON_parse w text ;;
  rlower <- prop "lower" result ;;
  rexplanation <- prop "explanation" result ;;
  ret {| upper := upper;
         lower := or_else rlower (JStr "生成失败");
         explanation := or_else rexplanation (JStr "无法解释");
         qualityScore := Some (quality_of_loss loss) |}.

(** The [catch] block. *)
Definition on_error (upper : string) (error : JsError) : CoupletResult :=
  {| upper := upper;
     lower := JStr "调用失败";
     explanation := JStr ("请确保已配置 Google Gemini API Key。错误详情: " ++ message error);
     qualityScore := Some 0%Z |}.

(** The promise settles with the value of the [try] block or, when the block
    throws, with the value of the [catch] block. *)
Definition generateCouplet (w : World) (upper : string) (modelType : ModelType)
    (trainingContext : option TrainingContext) : Settled CoupletResult :=
  match try_body w upper modelType trainingContext with
  | inr result => Fulfilled result
  | inl error => Fulfilled (on_error upper error)
  end.

End Gemini.

(** ** App.tsx and components/NetworkVisualizer.tsx: the guided stepper *)

Module Stepper.

Local Open Scope Z_scope.

Definition STEPS_DATA (m : ModelType) : list StepInfo :=
  match m with
  | fnn =>
    [
    {| title := "FNN 架构预览";
       desc := "全连接神经网络(Fully Connected Neural Network)：数据单向流动，层与层之间所有节点相互连接。适用于简单的模式匹配，但在处理长序列文本（如长对联）时缺乏上下文记忆。";
       formula := Some "y = f(x; θ)";
       formulaDesc := Some "输入 x 经过参数 θ 变换得到输出 y";
       highlightIds := [];
       view := None;
       fadeIds := None |};
    {| title := "输入层激活 (Input)";
       desc := "数据（上联的字词向量）从左侧 Input Layer 进入网络。每个节点代表一个特征。";
       formula := Some "x = [x₁, x₂, ..., xₙ]";
       formulaDesc := Some "将文字转换为计算机能理解的数字向量";
       highlightIds := ["fnn-node-l0"];
       view := None;
       fadeIds := None |};
    {| title := "前向传播 (Hidden)";
       desc := "数据经过中间的 Hidden Layers。全连接层提取复杂的语义特征，计算加权和并经过激活函数。";
       formula := Some "h = σ(W·x + b)";
       formulaDesc := Some "权重 × 输入 + 偏置，再通过激活函数非线性变换";
       highlightIds := ["fnn-node-l1"; "fnn-node-l2"; "fnn-link-l0"; "fnn-link-l1"];
       view := None;
       fadeIds := None |};
    {| title := "输出结果 (Output)";
       desc := "最终到达右侧 Output Layer，生成预测的下联字词概率分布。";
       formula := Some "y = softmax(V·h + c)";
       formulaDesc := Some "将数值转化为下联每个字的预测概率";
       highlightIds := ["fnn-node-l3"; "fnn-link-l2"];
       view := None;
       fadeIds := None |}
    ]
  | rnn =>
    [
    {| title := "RNN 折叠视图 (Loop)";
       desc := "RNN (Recurrent Neural Network) 的核心是自循环：单元 A 把当前的输出传给下一刻的自己。当前时刻的状态 h_t 由当前输入 x_t 和上一时刻状态 h_{t-1} 共同决定。";
       formula := Some "hₜ = tanh(Wₕ·hₜ₋₁ + Wₓ·xₜ)";
       formulaDesc := Some "今日记忆 = tanh(昨日记忆 + 今日输入)";
       highlightIds := ["path-rf-loop"; "rnn-f-cell"];
       view := Some folded;
       fadeIds := None |};
    {| title := "RNN 展开视图 (Time)";
       desc := "按时间展开后，RNN 变成了一个链式结构，适合处理像对联这样的序列文字。";
       formula := Some "Cost = Σ Loss(yₜ, ŷₜ)";
       formulaDesc := Some "总误差是每一个时间步预测误差的累加";
       highlightIds := [];
       view := Some unfolded;
       fadeIds := None |};
    {| title := "记忆功能 (Memory)";
       desc := "高亮的横向箭头代表记忆（Hidden State）：上联第一个字的信息可以一路传到最后。";
       formula := Some "h₀ → h₁ → h₂ → ... → hₜ";
       formulaDesc := Some "记忆状态沿着时间轴一步步向后传递";
       highlightIds := ["rnn-mem-arrow"];
       view := Some unfolded;
       fadeIds := None |};
    {| title := "问题：梯度消失";
       desc := "当链条太长，反向传播时梯度在远处（左侧）会趋近于 0，导致网络‘忘记’开头的文字，无法做到前后呼应。";
       formula := Some "∂E/∂W ≈ 0 (Gradient Vanishing)";
       formulaDesc := Some "误差传不回去，导致前面的参数无法有效更新（即忘记了开头）";
       highlightIds := ["rnn-step-4"];
       view := Some unfolded;
       fadeIds := Some ["rnn-step-0"; "rnn-step-1"; "rnn-step-2"] |}
    ]
  | lstm =>
    [
    {| title := "LSTM 解决方案";
       desc := "LSTM (Long Short-Term Memory) 引入了顶部的‘细胞状态’(Cell State) C_t 高速路，这就像传送带，让信息能无损流动，解决梯度消失。";
       formula := Some "Cₜ = fₜ·Cₜ₋₁ + iₜ·C̃ₜ";
       formulaDesc := Some "新状态 = 旧状态保留部分 + 新输入添加部分";
       highlightIds := ["lstm-path-c"];
       view := None;
       fadeIds := None |};
    {| title := "1. 遗忘门 (Forget)";
       desc := "Sigmoid 层输出 0 到 1 的数值，决定‘丢弃’多少旧信息。例如：如果上联语境变了，就忘记之前的临时主语。";
       formula := Some "fₜ = σ(W_f · [hₜ₋₁, xₜ] + b_f)";
       formulaDesc := Some "输出 0~1 的系数，0代表完全遗忘，1代表完全保留";
       highlightIds := ["lstm-forget-gate"; "lstm-forget-path"];
       view := None;
       fadeIds := None |};
    {| title := "2. 输入门 (Input)";
       desc := "Sigmoid 决定更新哪些值，Tanh 创建新的候选值向量。两者结合决定‘添加’多少新信息到细胞状态。";
       formula := Some "iₜ = σ(...) , C̃ₜ = tanh(...)";
       formulaDesc := Some "决定哪些新信息是重要的，并加入到长期记忆中";
       highlightIds := ["lstm-input-gate"; "lstm-input-path"];
       view := None;
       fadeIds := None |};
    {| title := "3. 输出门 (Output)";
       desc := "基于细胞状态和当前输入，计算最终的隐藏状态 h(t)，用于预测下一个字。";
       formula := Some "hₜ = oₜ · tanh(Cₜ)";
       formulaDesc := Some "基于当前的长期记忆，决定这一刻输出什么内容";
       highlightIds := ["lstm-output-gate"; "lstm-output-path"; "lstm-path-out"];
       view := None;
       fadeIds := None |}
    ]
  end.

(** The two [useState] cells of [App]. *)
Record App := mkApp {
  activeTab : ModelType;
  stepIndex : Z
}.

Definition initial : App := {| activeTab := fnn; stepIndex := 0 |}.

Definition setStepIndex (idx : Z) (s : App) : App :=
  {| activeTab := activeTab s; stepIndex := idx |}.

Definition handleTabChange (type : ModelType) (s : App) : App :=
  {| activeTab := type; stepIndex := 0 |}.

(** The [steps] prop handed to [NetworkVisualizer]. *)
Definition steps (s : App) : list StepInfo := STEPS_DATA (activeTab s).

(** [steps[stepIndex]]; [None] is [undefined]. *)
Definition currentStep (s : App) : option StepInfo :=
  if stepIndex s <? 0 then None else nth_error (steps s) (Z.to_nat (stepIndex s)).

(** The [disabled] attributes and [onClick] handlers of the two buttons. *)
Definition previous_disabled (s : App) : bool := stepIndex s =? 0.
Definition next_disabled (s : App) : bool :=
  stepIndex s =? Z.of_nat (List.length (steps s)) - 1.
Definition previous_onClick (s : App) : App := setStepIndex (stepIndex s - 1) s.
Definition next_onClick (s : App) : App := setStepIndex (stepIndex s + 1) s.

(** A click on a disabled button dispatches no handler. *)
Definition click (disabled : bool) (onClick : App -> App) (s : App) : App :=
  if disabled then s else onClick s.

Definition previous (s : App) : App := click (previous_disabled s) previous_onClick s.
Definition next (s : App) : App := click (next_disabled s) next_onClick s.

Inductive Op :=
| SelectArchitecture (a : ModelType)
| Next
| Previous.

Definition apply (o : Op) (s : App) : App :=
  match o with
  | SelectArchitecture a => handleTabChange a s
  | Next => next s
  | Previous => previous s
  end.

(** The state after a sequence of operations, oldest first. *)
Definition run (ops : list Op) (s : App) : App :=
  fold_left (fun s o => apply o s) ops s.

(** The index designates a step of the active architecture. *)
Definition in_bounds (s : App) : Prop :=
  0 <= stepIndex s < Z.of_nat (List.length (steps s)).

End Stepper.

(** ** components/TrainingLab.tsx: the simulated training run *)

Module Lab.

Local Open Scope list_scope.

Inductive Status := idle | training | completed.

Definition Status_eqb (a b : Status) : bool :=
  match a, b with
  | idle, idle | training, training | completed, completed => true
  | _, _ => false
  end.

(** The variables a [trainStep] closure captures: the mutable counter
    [currentEpoch] and the constants computed by [startTraining], together
    with [params] and [modelType] of the render that created it. *)
Record Run := mkRun {
  currentEpoch : Z;
  totalEpochs : Z;
  lrFactor : R;
  targetLoss : R;
  run_params : TrainingParams;
  run_modelType : ModelType
}.

(** A pending [window.setTimeout(trainStep, speed)]. *)
Record Timer := mkTimer {
  timer_id : nat;
  timer_delay : Z;
  timer_run : Run
}.

(** The component's hooks ([modelType] is its prop), the window's timer
    table and random source, the promise of a generation request in flight,
    and one history variable: [emitted] lists every sample handed to
    [setMetrics], oldest first. No handler reads [emitted]. *)
Record State := mkState {
  modelType : ModelType;
  params : TrainingParams;
  status : Status;
  metrics : list TrainingMetric;
  progress : R;
  finalLoss : R;
  isGenerating : bool;
  testResult : option CoupletResult;
  trainingRef : option nat;
  timers : list Timer;
  nextTimerId : nat;
  draws : nat;
  inflight : option (Gemini.Settled CoupletResult);
  emitted : list TrainingMetric
}.

Definition with_modelType (v : ModelType) (s : State) : State :=
  mkState v (params s) (status s) (metrics s) (progress s) (finalLoss s) (isGenerating
    s) (testResult s) (trainingRef s) (timers s) (nextTimerId s) (draws s) (inflight s)
    (emitted s).
Definition setParams (v : TrainingParams) (s : State) : State :=
  mkState (modelType s) v (status s) (metrics s) (progress s) (finalLoss s)
    (isGenerating s) (testResult s) (trainingRef s) (timers s) (nextTimerId s) (draws s)
    (inflight s) (emitted s).
Definition setStatus (v : Status) (s : State) : State :=
  mkState (modelType s) (params s) v (metrics s) (progress s) (finalLoss s)
    (isGenerating s) (testResult s) (trainingRef s) (timers s) (nextTimerId s) (draws s)
    (inflight s) (emitted s).
Definition setMetrics (v : list TrainingMetric) (s : State) : State :=
  mkState (modelType s) (params s) (status s) v (progress s) (finalLoss s) (isGenerating
    s) (testResult s) (trainingRef s) (timers s) (nextTimerId s) (draws s) (inflight s)
    (emitted s).
Definition setProgress (v : R) (s : State) : State :=
  mkState (modelType s) (params s) (status s) (metrics s) v (finalLoss s) (isGenerating
    s) (testResult s) (trainingRef s) (timers s) (nextTimerId s) (draws s) (inflight s)
    (emitted s).
Definition setFinalLoss (v : R) (s : State) : State :=
  mkState (modelType s) (params s) (status s) (metrics s) (progress s) v (isGenerating
    s) (testResult s) (trainingRef s) (timers s) (nextTimerId s) (draws s) (inflight s)
    (emitted s).
Definition setIsGenerating (v : bool) (s : State) : State :=
  mkState (modelType s) (params s) (status s) (metrics s) (progress s) (finalLoss s) v
    (testResult s) (trainingRef s) (timers s) (nextTimerId s) (draws s) (inflight s)
    (emitted s).
Definition setTestResult (v : option CoupletResult) (s : State) : State :=
  mkState (modelType s) (params s) (status s) (metrics s) (progress s) (finalLoss s)
    (isGenerating s) v (trainingRef s) (timers s) (nextTimerId s) (draws s) (inflight s)
    (emitted s).
Definition with_trainingRef (v : option nat) (s : State) : State :=
  mkState (modelType s) (params s) (status s) (metrics s) (progress s) (finalLoss s)
    (isGenerating s) (testResult s) v (timers s) (nextTimerId s) (draws s) (inflight s)
    (emitted s).
Definition with_timers (v : list Timer) (s : State) : State :=
  mkState (modelType s) (params s) (status s) (metrics s) (progress s) (finalLoss s)
    (isGenerating s) (testResult s) (trainingRef s) v (nextTimerId s) (draws s)
    (inflight s) (emitted s).
Definition with_nextTimerId (v : nat) (s : State) : State :=
  mkState (modelType s) (params s) (status s) (metrics s) (progress s) (finalLoss s)
    (isGenerating s) (testResult s) (trainingRef s) (timers s) v (draws s) (inflight s)
    (emitted s).
Definition with_draws (v : nat) (s : State) : State :=
  mkState (modelType s) (params s) (status s) (metrics s) (progress s) (finalLoss s)
    (isGenerating s) (testResult s) (trainingRef s) (timers s) (nextTimerId s) v
    (inflight s) (emitted s).
Definition with_inflight (v : option (Gemini.Settled CoupletResult)) (s : State) : State :=
  mkState (modelType s) (params s) (status s) (metrics s) (progress s) (finalLoss s)
    (isGenerating s) (testResult s) (trainingRef s) (timers s) (nextTimerId s) (draws s)
    v (emitted s).
Definition with_emitted (v : list TrainingMetric) (s : State) : State :=
  mkState (modelType s) (params s) (status s) (metrics s) (progress s) (finalLoss s)
    (isGenerating s) (testResult s) (trainingRef s) (timers s) (nextTimerId s) (draws s)
    (inflight s) v.

Definition initial (m : ModelType) : State :=
  {| modelType := m;
     params := {| epochs := 50; learningRate := 0.01 |};
     status := idle;
     metrics := [];
     progress := 0;
     finalLoss := 1.0;
     isGenerating := false;
     testResult := None;
     trainingRef := None;
     timers := [];
     nextTimerId := 1;
     draws := 0;
     inflight := None;
     emitted := [] |}.

(** *** Platform *)

(** [window.setTimeout(callback, delay)]: the new id and the new state. *)
Definition setTimeout (callback : Run) (delay : Z) (s : State) : nat * State :=
  let id := nextTimerId s in
  (id, with_nextTimerId (S id)
         (with_timers (timers s ++ [mkTimer id delay callback]) s)).

(** [clearTimeout(id)]. *)
Definition clearTimeout (id : nat) (s : State) : State :=
  with_timers (filter (fun t => negb (Nat.eqb (timer_id t) id)) (timers s)) s.

Definition find_timer (id : nat) (s : State) : option Timer :=
  find (fun t => Nat.eqb (timer_id t) id) (timers s).

(** *** Handlers *)

(** [{ ...prev, ...newParams }] for a [Partial<TrainingParams>]. *)
Definition merge_params (prev : TrainingParams) (newParams : option Z * option R)
    : TrainingParams :=
  {| epochs := match fst newParams with Some e => e | None => epochs prev end;
     learningRate := match snd newParams with Some l => l | None => learningRate prev end |}.

Definition handleParamChange (newParams : option Z * option R) (s : State) : State :=
  let s := setParams (merge_params (params s) newParams) s in
  if Status_eqb (status s) completed then
    setTestResult None (setStatus idle s)
  else s.

Definition resetLab (s : State) : State :=
  let s := setStatus idle s in
  let s := setMetrics [] s in
  let s := setProgress 0 s in
  let s := setTestResult None s in
  let s := setFinalLoss 1.0 s in
  match trainingRef s with
  | Some id => if Nat.eqb id 0 then s else clearTimeout id s
  | None => s
  end.

(** [useEffect(() => resetLab(), [modelType])] when the prop changes. *)
Definition receive_modelType (m : ModelType) (s : State) : State :=
  if ModelType_eqb m (modelType s) then s else resetLab (with_modelType m s).

Definition lrFactor_of (lr : R) : R :=
  if Req_dec_T lr 0.01 then 1.0 else if Rlt_dec 0.05 lr then 0.5 else 0.8.

Definition targetLoss_of (lr u : R) : R :=
  0.05 + (u * 0.1) + (if Rlt_dec 0.05 lr then 0.2 else 0).

(** The updater handed to [setMetrics]. *)
Definition push_metric (sample : TrainingMetric) (prev : list TrainingMetric)
    : list TrainingMetric :=
  let newMetrics := prev ++ [sample] in
  if (50 <? List.length newMetrics)%nat
  then skipn (List.length newMetrics - 50) newMetrics
  else newMetrics.

Definition progressRatio (r : Run) : R :=
  IZR (currentEpoch r + 1) / IZR (totalEpochs r).

(** The recurrent quirk applies. *)
Definition unstable (r : Run) : bool :=
  ModelType_eqb (run_modelType r) rnn
  && (if Rlt_dec 0.5 (progressRatio r) then true else false).

(** [currentLoss] of one tick, from the closure [r] (before the tick's
    increment) and the two values [Math.random()] would return; the second
    one is only read when the quirk applies. *)
Definition tick_loss (r : Run) (u1 u2 : R) : R :=
  let decay := exp (- progressRatio r * 5 * lrFactor r) in
  let noiseMagnitude := learningRate (run_params r) * 2 in
  let noise := (u1 - 0.5) * noiseMagnitude in
  let currentLoss := targetLoss r + (decay * (1 - targetLoss r)) + noise in
  let currentLoss := Rmax 0 (Rmin 1 currentLoss) in
  if unstable r then currentLoss + (u2 * 0.05) else currentLoss.

Definition speed (m : ModelType) : Z :=
  match m with fnn => 30 | rnn => 50 | lstm => 60 end%Z.

Section Random.

(** [rand n] is what the [n]-th call of [Math.random()] returns. *)
Variable rand : nat -> R.

Definition trainStep (r : Run) (s : State) : State :=
  let currentEpoch' := (currentEpoch r + 1)%Z in
  let currentLoss := tick_loss r (rand (draws s)) (rand (S (draws s))) in
  let s := with_draws (if unstable r then S (S (draws s)) else S (draws s)) s in
  let sample := {| epoch := currentEpoch';
                   loss := Num.toFixed3 currentLoss;
                   accuracy := Num.toFixed3 (1 - currentLoss) |} in
  let s := with_emitted (emitted s ++ [sample]) (setMetrics (push_metric sample (metrics s)) s) in
  let s := setProgress (IZR currentEpoch' / IZR (totalEpochs r) * 100) s in
  if (currentEpoch' <? totalEpochs r)%Z then
    let r' := mkRun currentEpoch' (totalEpochs r) (lrFactor r) (targetLoss r)
                    (run_params r) (run_modelType r) in
    let (id, s) := setTimeout r' (speed (run_modelType r)) s in
    with_trainingRef (Some id) s
  else
    setFinalLoss currentLoss (setStatus completed s).

Definition startTraining (s : State) : State :=
  let p := params s in
  let m := modelType s in
  let s := setStatus training s in
  let s := setMetrics [] s in
  let s := setTestResult None s in
  let s := setProgress 0 s in
  let lrFactor := lrFactor_of (learningRate p) in
  let targetLoss := targetLoss_of (learningRate p) (rand (draws s)) in
  let s := with_draws (S (draws s)) s in
  trainStep (mkRun 0 (epochs p) lrFactor targetLoss p m) s.

(** A timer fires: its entry leaves the table and its callback runs. A
    cleared or unknown id does nothing. *)
Definition fire (id : nat) (s : State) : State :=
  match find_timer id s with
  | Some t => trainStep (timer_run t) (clearTimeout id s)
  | None => s
  end.

(** [!testInput.trim()] on the white space of ASCII. *)
Definition is_space (c : ascii) : bool :=
  let n := nat_of_ascii c in
  (Nat.eqb n 32 || (Nat.leb 9 n && Nat.leb n 13))%bool.

Fixpoint blank (s : string) : bool :=
  match s with
  | EmptyString => true
  | String c rest => is_space c && blank rest
  end.

(** [handleGenerate] up to its [await]: the request is issued with the
    [finalLoss] and [params] of the current render. *)
Definition handleGenerate (w : Gemini.World) (testInput : string) (s : State) : State :=
  if blank testInput then s
  else
    let s := setIsGenerating true s in
    let s := setTestResult None s in
    with_inflight
      (Some (Gemini.generateCouplet w testInput (modelType s)
               (Some (Gemini.mkContext (finalLoss s) (epochs (params s)))))) s.

(** [handleGenerate] after its [await]. *)
Definition generation_settles (s : State) : State :=
  match inflight s with
  | Some (Gemini.Fulfilled result) =>
      with_inflight None (setIsGenerating false (setTestResult (Some result) s))
  | Some (Gemini.Rejected _) => with_inflight None s
  | None => s
  end.

(** *** Events *)

Inductive Event :=
| ChangeEpochs (e : Z)            (* the range input *)
| ChangeLearningRate (lr : R)     (* one of the three rate buttons *)
| StartClick
| GenerateClick (w : Gemini.World) (testInput : string)
| GenerationSettles
| TimerFires (id : nat)
| ModelTypeChanges (m : ModelType).

(** The [disabled] attribute of the control an event comes from. *)
Definition disabled (ev : Event) (s : State) : bool :=
  match ev with
  | ChangeEpochs _ | ChangeLearningRate _ | StartClick => Status_eqb (status s) training
  | GenerateClick _ _ => isGenerating s || negb (Status_eqb (status s) completed)
  | GenerationSettles | TimerFires _ | ModelTypeChanges _ => false
  end.

Definition handle (ev : Event) (s : State) : State :=
  match ev with
  | ChangeEpochs e => handleParamChange (Some e, None) s
  | ChangeLearningRate lr => handleParamChange (None, Some lr) s
  | StartClick => startTraining s
  | GenerateClick w testInput => handleGenerate w testInput s
  | GenerationSettles => generation_settles s
  | TimerFires id => fire id s
  | ModelTypeChanges m => receive_modelType m s
  end.

Definition step (s : State) (ev : Event) : State :=
  if disabled ev s then s else handle ev s.

(** The state after a sequence of events, oldest first. *)
Definition run (evs : list Event) (s : State) : State := fold_left step evs s.

(** The oldest pending timer fires, if there is one. *)
Definition tick (s : State) : State :=
  match timers s with
  | t :: _ => fire (timer_id t) s
  | [] => s
  end.

End Random.

(** *** Domains *)

(** The values the controls can send. *)
Definition valid_epochs (e : Z) : Prop := (10 <= e <= 100)%Z.
Definition valid_learningRate (lr : R) : Prop := lr = 0.1 \/ lr = 0.01 \/ lr = 0.001.

Definition valid_params (p : TrainingParams) : Prop :=
  valid_epochs (epochs p) /\ valid_learningRate (learningRate p).

Definition valid_event (ev : Event) : Prop :=
  match ev with
  | ChangeEpochs e => valid_epochs e
  | ChangeLearningRate lr => valid_learningRate lr
  | _ => True
  end.

(** Every value of the random source lies in [[0, 1)]. *)
Definition uniform (rand : nat -> R) : Prop := forall n, 0 <= rand n < 1.

End Lab.

(** ** Reference formulas, written after the specification's wording *)

Module Spec.

(** [round(clamp((1 - finalLoss) * 100, 0, 100))]. *)
Definition qualityScore (finalLoss : R) : Z :=
  Num.Math_round (Rmax 0 (Rmin 100 ((1 - finalLoss) * 100))).

(** The loss of one tick with the recurrent instability term added before
    the clamp. *)
Definition tick_loss (r : Lab.Run) (u1 u2 : R) : R :=
  let decay := exp (- Lab.progressRatio r * 5 * Lab.lrFactor r) in
  let noise := (u1 - 0.5) * (learningRate (Lab.run_params r) * 2) in
  let raw := Lab.targetLoss r + decay * (1 - Lab.targetLoss r) + noise in
  Num.clamp01 (if Lab.unstable r then raw + u2 * 0.05 else raw).

End Spec.

(** ** Ways the external call fails *)

Module Failure.

Import Gemini.

Inductive Cause :=
| MissingKey
| HttpError (status : Z) (errorText : string)
| EmptyResponse
| Unparseable (e : JsError).

(** The message of the error each cause raises. *)
Definition cause_message (c : Cause) : string :=
  match c with
  | MissingKey => "API Key is missing"
  | HttpError st t => "Gemini API Error: " ++ Num.string_of_Z st ++ " - " ++ t
  | EmptyResponse => "No response from Gemini API"
  | Unparseable e => message e
  end.

(** The key is configured and [fetch] resolves to [resp]. *)
Definition answered (w : World) (upper : string) (m : ModelType)
    (ctx : option TrainingContext) (resp : Response) : Prop :=
  exists k, API_KEY w = Some k /\ String.eqb k EmptyString = false
            /\ fetch w (request k upper m (context_loss ctx)) = inr resp.

Definition occurs (c : Cause) (w : World) (upper : string) (m : ModelType)
    (ctx : option TrainingContext) : Prop :=
  match c with
  | MissingKey => API_KEY w = None \/ API_KEY w = Some EmptyString
  | HttpError st t =>
      exists resp, answered w upper m ctx resp /\ ok resp = false
                   /\ resp_status resp = st /\ resp_text resp = inr t
  | EmptyResponse =>
      exists resp data text, answered w upper m ctx resp /\ ok resp = true
                   /\ resp_json resp = inr data /\ extract_text data = inr text
                   /\ truthy text = false
  | Unparseable e =>
      exists resp, answered w upper m ctx resp /\ ok resp = true
        /\ (resp_json resp = inl e
            \/ exists data text, resp_json resp = inr data
                 /\ extract_text data = inr text /\ truthy text = true
                 /\ JSON_parse w text = inl e)
  end.

(** A world without an API key. *)
Definition no_key_world : World :=
  {| API_KEY := None;
     fetch := fun _ => inl (mkError "Failed to fetch");
     JSON_parse := fun _ => inl (mkError "Unexpected token") |}.

(** A world whose service answers with one candidate holding [text], which
    parses to an object with both fields. *)
Definition answering_world : World :=
  {| API_KEY := Some "k";
     fetch := fun _ =>
       inr {| ok := true; resp_status := 200;
              resp_text := inr "{}";
              resp_json := inr (JObj [("candidates",
                 JArr [JObj [("content",
                   JObj [("parts", JArr [JObj [("text", JStr "{}")]])])]])]) |};
     JSON_parse := fun _ =>
       inr (JObj [("lower", JStr "l"); ("explanation", JStr "e")]) |}.

End Failure.

(** ** A training run, tick by tick *)

Module Trace.

Import Lab.
Local Open Scope list_scope.

Section Run.

Variable rand : nat -> R.

(** The run is started in state [s0]. *)
Variable s0 : State.

(** The closure after [k] ticks. *)
Definition closure (k : nat) : Run :=
  mkRun (Z.of_nat k) (epochs (params s0))
        (lrFactor_of (learningRate (params s0)))
        (targetLoss_of (learningRate (params s0)) (rand (draws s0)))
        (params s0) (modelType s0).

(** How many values of the random source are used up after [k] ticks. *)
Fixpoint draws_before (k : nat) : nat :=
  match k with
  | O => S (draws s0)
  | S k' => if unstable (closure k') then S (S (draws_before k'))
            else S (draws_before k')
  end.

(** The loss and the sample of tick [k + 1]. *)
Definition loss_at (k : nat) : R :=
  tick_loss (closure k) (rand (draws_before k)) (rand (S (draws_before k))).

Definition sample_at (k : nat) : TrainingMetric :=
  {| epoch := Z.of_nat k + 1;
     loss := Num.toFixed3 (loss_at k);
     accuracy := Num.toFixed3 (1 - loss_at k) |}.

(** The samples of the first [k] ticks. *)
Definition samples (k : nat) : list TrainingMetric := map sample_at (seq 0 k).

(** The state after [k] ticks, for [k >= 1]: the start button is clicked,
    which runs the first tick, and the pending timer fires [k - 1] times. *)
Definition after_ticks (k : nat) : State :=
  Nat.iter (k - 1) (tick rand) (step rand s0 StartClick).

(** What the first [k] ticks leave behind while the run is under way. *)
Definition running (k : nat) (s : State) : Prop :=
  emitted s = emitted s0 ++ samples k
  /\ metrics s = skipn (k - 50) (samples k)
  /\ draws s = draws_before k
  /\ status s = training
  /\ finalLoss s = finalLoss s0
  /\ exists id, timers s = [mkTimer id (speed (modelType s0)) (closure k)].

(** What the last tick, number [k], leaves behind. *)
Definition finished (k : nat) (s : State) : Prop :=
  emitted s = emitted s0 ++ samples k
  /\ metrics s = skipn (k - 50) (samples k)
  /\ draws s = draws_before k
  /\ status s = completed
  /\ finalLoss s = loss_at (k - 1)
  /\ timers s = [].

End Run.

End Trace.

(** ** Invariants of the training lab *)

Module Invariant.

Import Lab.
Local Open Scope list_scope.

(** The samples of [l] carry the epochs [e], [e + 1], ... *)
Fixpoint ascending_from (e : Z) (l : list TrainingMetric) : Prop :=
  match l with
  | [] => True
  | m :: rest => epoch m = e /\ ascending_from (e + 1) rest
  end.

(** Timers, the timer reference and the history. *)
Record structural (s : State) : Prop := {
  no_timer_unless_training : status s <> training -> timers s = [];
  timer_is_referenced :
    forall t, In t (timers s) ->
      trainingRef s = Some (timer_id t) /\ timer_id t <> 0%nat;
  next_id_positive : nextTimerId s <> 0%nat;
  history_capped : (List.length (metrics s) <= 50)%nat;
  history_is_recent : exists older, emitted s = older ++ metrics s;
  history_in_order :
    exists e, ascending_from e (metrics s)
      /\ forall t, In t (timers s) ->
           (currentEpoch (timer_run t) + 1 = e + Z.of_nat (List.length (metrics s)))%Z
}.

(** A closure made by [startTraining] from valid parameters, with at least
    one tick still to run. *)
Definition good_run (r : Run) : Prop :=
  valid_params (run_params r)
  /\ totalEpochs r = epochs (run_params r)
  /\ lrFactor r = lrFactor_of (learningRate (run_params r))
  /\ (exists u, 0 <= u < 1
         /\ targetLoss r = targetLoss_of (learningRate (run_params r)) u)
  /\ (0 <= currentEpoch r < totalEpochs r)%Z.

(** A sample made by a tick of such a closure, for two values the random
    source can return. *)
Definition from_tick (m : TrainingMetric) : Prop :=
  exists r u1 u2,
    good_run r /\ 0 <= u1 < 1 /\ 0 <= u2 < 1
    /\ epoch m = (currentEpoch r + 1)%Z
    /\ loss m = Num.toFixed3 (tick_loss r u1 u2)
    /\ accuracy m = Num.toFixed3 (1 - tick_loss r u1 u2).

(** Values: parameters, closures and samples. *)
Record numeric (s : State) : Prop := {
  params_valid : valid_params (params s);
  runs_good : forall t, In t (timers s) -> good_run (timer_run t);
  samples_from_ticks : forall m, In m (emitted s) -> from_tick m
}.

End Invariant.

(** ** A concrete run: rate 0.1, ten epochs, feed-forward *)

Module Demo.

Import Lab.

(** The value the random source returns for the noise of the tenth tick;
    it makes that tick's loss [0.3125]. *)
Definition tenth_draw : R := 0.8125 - 3.75 * exp (- 2.5).

Definition rand (n : nat) : R := if Nat.eqb n 10 then tenth_draw else 0.

Definition setup : list Event := [ChangeLearningRate 0.1; ChangeEpochs 10%Z].

(** Before the start button is clicked. *)
Definition configured : State := run rand setup (initial fnn).

(** After the ten ticks. *)
Definition final : State := Trace.after_ticks rand configured 10.

(** The tenth sample. *)
Definition tenth_sample : TrainingMetric :=
  {| epoch := 10; loss := 0.313; accuracy := 0.688 |}.

(** The random source that always returns 0. *)
Definition zeros (n : nat) : R := 0.

(** The closure and the sample of the first tick of a run started with the
    initial parameters and the random source [zeros]. *)
Definition first_run : Run :=
  mkRun 0 50 (lrFactor_of 0.01) (targetLoss_of 0.01 0)
        {| epochs := 50; learningRate := 0.01 |} fnn.

Definition first_sample : TrainingMetric :=
  {| epoch := 1;
     loss := Num.toFixed3 (tick_loss first_run 0 0);
     accuracy := Num.toFixed3 (1 - tick_loss first_run 0 0) |}.

(** A whole run of ten epochs, event by event. *)
Definition ten_epochs : list Event :=
  [ChangeEpochs 10%Z; StartClick; TimerFires 1; TimerFires 2; TimerFires 3;
   TimerFires 4; TimerFires 5; TimerFires 6; TimerFires 7; TimerFires 8;
   TimerFires 9].

End Demo.

(** ** components/NetworkVisualizer.tsx: what a step highlights *)

Module Visualizer.

(** [ids.includes(id)]. *)
Definition includes (id : string) (ids : list string) : bool :=
  existsb (String.eqb id) ids.

Definition isHighlighted (currentStep : StepInfo) (id : string) : bool :=
  includes id (highlightIds currentStep).

(** [currentStep.fadeIds?.includes(id)]; [undefined] counts as false. *)
Definition isFaded (currentStep : StepInfo) (id : string) : bool :=
  match fadeIds currentStep with
  | Some ids => includes id ids
  | None => false
  end.

(** An element takes its class from [getNodeClass] or from [getPathClass]. *)
Inductive Shape := NodeShape | PathShape.

Definition layers : list nat := [4; 5; 5; 3]%nat.

Definition index_text (i : nat) : string := Num.string_of_Z (Z.of_nat i).

(** One iteration of the map over the layers: the links to the next layer,
    when there is one, then the nodes. *)
Definition fnn_layer (layerIdx count : nat) : list (Shape * string) :=
  ((if (layerIdx <? List.length layers - 1)%nat
    then repeat (PathShape, ("fnn-link-l" ++ index_text layerIdx)%string)
                (count * nth (layerIdx + 1) layers 0)%nat
    else [])
   ++ repeat (NodeShape, ("fnn-node-l" ++ index_text layerIdx)%string) count)%list.

Definition fnn_elements : list (Shape * string) :=
  flat_map (fun layerIdx => fnn_layer layerIdx (nth layerIdx layers 0%nat))
           (seq 0 (List.length layers)).

Definition rnn_folded_elements : list (Shape * string) :=
  [(NodeShape, "rnn-f-cell"); (NodeShape, "rnn-f-input"); (NodeShape, "rnn-f-output");
   (PathShape, "path-rf-in"); (PathShape, "path-rf-out"); (PathShape, "path-rf-loop")].

(** One iteration of [Array.from({ length: 5 }).map]. *)
Definition rnn_time_step (i : nat) : list (Shape * string) :=
  let stepId := "rnn-step-" ++ index_text i in
  ((if (i <? 4)%nat then [(PathShape, "rnn-mem-arrow")] else [])
   ++ [(NodeShape, stepId); (PathShape, stepId); (NodeShape, stepId);
       (NodeShape, stepId); (PathShape, stepId)])%list.

Definition rnn_unfolded_elements : list (Shape * string) :=
  flat_map rnn_time_step (seq 0 5).

Definition lstm_elements : list (Shape * string) :=
  [(PathShape, "lstm-path-c");
   (PathShape, "lstm-input-path"); (PathShape, "lstm-input-path");
   (NodeShape, "lstm-forget-gate");
   (PathShape, "lstm-forget-path"); (PathShape, "lstm-forget-path");
   (NodeShape, "lstm-forget-gate");
   (NodeShape, "lstm-input-gate"); (NodeShape, "lstm-input-gate");
   (PathShape, "lstm-input-path"); (PathShape, "lstm-input-path");
   (NodeShape, "lstm-input-gate");
   (PathShape, "lstm-input-path"); (PathShape, "lstm-input-path");
   (NodeShape, "lstm-input-gate");
   (PathShape, "lstm-input-path");
   (NodeShape, "lstm-output-gate");
   (PathShape, "lstm-output-path");
   (NodeShape, "lstm-output-gate");
   (PathShape, "lstm-output-path");
   (NodeShape, "lstm-output-gate");
   (PathShape, "lstm-output-path"); (PathShape, "lstm-output-path");
   (PathShape, "lstm-path-out")].

(** The elements drawn for an architecture and the current step; the
    recurrent diagram is folded unless the step asks for [unfolded]. *)
Definition elements (modelType : ModelType) (currentStep : StepInfo)
    : list (Shape * string) :=
  match modelType with
  | fnn => fnn_elements
  | rnn => match view currentStep with
           | Some unfolded => rnn_unfolded_elements
           | _ => rnn_folded_elements
           end
  | lstm => lstm_elements
  end.

Definition drawn (modelType : ModelType) (currentStep : StepInfo) (id : string) : bool :=
  includes id (map snd (elements modelType currentStep)).

(** Every id a step highlights or fades is drawn, and none is both. *)
Definition step_consistent (modelType : ModelType) (currentStep : StepInfo) : bool :=
  forallb (drawn modelType currentStep)
          (highlightIds currentStep
           ++ match fadeIds currentStep with Some ids => ids | None => [] end)%list
  && forallb (fun id => negb (isFaded currentStep id)) (highlightIds currentStep).

End Visualizer.

(** ** App.tsx: the page holding the stepper and the training lab *)

Module Page.

(** [App] hands [activeTab] to [TrainingLab] as its [modelType] prop. *)
Record State := mkPage {
  app : Stepper.App;
  lab : Lab.State
}.

Definition initial : State :=
  {| app := Stepper.initial; lab := Lab.initial (Stepper.activeTab Stepper.initial) |}.

Inductive Event :=
| SelectTab (type : ModelType)     (* a model selector button *)
| ClickNext
| ClickPrevious
| InLab (ev : Lab.Event).          (* an event inside [TrainingLab] *)

Section Random.

Variable rand : nat -> R.

Definition step (p : State) (ev : Event) : State :=
  match ev with
  | SelectTab type =>
      {| app := Stepper.handleTabChange type (app p);
         lab := Lab.receive_modelType type (lab p) |}
  | ClickNext => {| app := Stepper.next (app p); lab := lab p |}
  | ClickPrevious => {| app := Stepper.previous (app p); lab := lab p |}
  | InLab (Lab.ModelTypeChanges _) => p   (* the prop only changes with the tab *)
  | InLab ev => {| app := app p; lab := Lab.step rand (lab p) ev |}
  end.

Definition run (evs : list Event) (p : State) : State := fold_left step evs p.

End Random.

End Page.

(** ** Further invariants of the training lab *)

Module Coherence.

Import Lab.
Local Open Scope list_scope.

(** The pending tick belongs to the configuration on display, and requests
    to the service are single-flight. *)
Record coherent (s : State) : Prop := {
  at_most_one_pending : (List.length (timers s) <= 1)%nat;
  pending_while_training : status s = training -> timers s <> [];
  pending_matches :
    forall t, In t (timers s) ->
      run_params (timer_run t) = params s
      /\ totalEpochs (timer_run t) = epochs (params s)
      /\ run_modelType (timer_run t) = modelType s
      /\ timer_delay t = speed (modelType s);
  busy_while_inflight : isGenerating s = true <-> inflight s <> None;
  inflight_fulfilled :
    forall x, inflight s = Some x -> exists r, x = Gemini.Fulfilled r
}.

(** The progress bar. *)
Record progress_ok (s : State) : Prop := {
  epochs_valid : valid_epochs (epochs (params s));
  progress_when_completed : status s = completed -> progress s = 100;
  progress_when_pending :
    forall t, In t (timers s) ->
      (1 <= currentEpoch (timer_run t) < totalEpochs (timer_run t))%Z
      /\ progress s
         = IZR (currentEpoch (timer_run t)) / IZR (totalEpochs (timer_run t)) * 100
}.

End Coherence.

(** ** Where the recorded final loss is read *)

Module Observation.

Import Lab.

(** [finalLoss] is read in two places of [TrainingLab]: in the label beside
    the heading of the test area, [status === 'completed' && ... Loss:
    finalLoss.toFixed(3)], and in the request of [handleGenerate], whose
    button is disabled unless the status is [completed]. *)
Definition finalLoss_label (s : State) : option R :=
  if Status_eqb (status s) completed then Some (Num.toFixed3 (finalLoss s)) else None.

(** The state with the hook [finalLoss] blotted out. *)
Definition forget_finalLoss (s : State) : State := setFinalLoss 0 s.

(** Two states that agree on every hook but [finalLoss], and on [finalLoss]
    too whenever the status is [completed]. *)
Definition alike (a b : State) : Prop :=
  forget_finalLoss a = forget_finalLoss b
  /\ (status a = completed -> finalLoss a = finalLoss b).

End Observation.

(** * Properties *)

(** ** Quality score *)

Section QualityScore.

Import Gemini.

Lemma Math_round_mono (x y : R) : x <= y -> (Num.Math_round x <= Num.Math_round y)%Z.
Proof. intros H. unfold Num.Math_round. apply Zfloor_le. lra. Qed.

Lemma Math_round_IZR (z : Z) : Num.Math_round (IZR z) = z.
Proof.
  unfold Num.Math_round. apply Zfloor_eq. lra.
Qed.

Lemma quality_of_loss_spec (l : R) : quality_of_loss l = Spec.qualityScore l.
Proof.
  unfold quality_of_loss, Spec.qualityScore.
  set (x := (1 - l) * 100).
  destruct (Rle_dec x 0) as [Hx0 | Hx0].
  - assert (H : (Num.Math_round x <= 0)%Z).
    { rewrite <- (Math_round_IZR 0). now apply Math_round_mono. }
    replace (Rmax 0 (Rmin 100 x)) with 0.
    + rewrite (Math_round_IZR 0). lia.
    + unfold Rmax, Rmin.
      repeat (destruct (Rle_dec _ _)); lra.
  - destruct (Rle_dec 100 x) as [Hx1 | Hx1].
    + assert (H : (100 <= Num.Math_round x)%Z).
      { rewrite <- (Math_round_IZR 100). now apply Math_round_mono. }
      replace (Rmax 0 (Rmin 100 x)) with 100.
      * rewrite (Math_round_IZR 100). lia.
      * unfold Rmax, Rmin.
        repeat (destruct (Rle_dec _ _)); lra.
    + replace (Rmax 0 (Rmin 100 x)) with x.
      * assert (H0 : (0 <= Num.Math_round x)%Z).
        { rewrite <- (Math_round_IZR 0). apply Math_round_mono. lra. }
        assert (H1 : (Num.Math_round x <= 100)%Z).
        { rewrite <- (Math_round_IZR 100). apply Math_round_mono. lra. }
        lia.
      * unfold Rmax, Rmin.
        repeat (destruct (Rle_dec _ _)); lra.
Qed.

Lemma quality_of_loss_antitone (l1 l2 : R) :
  l1 <= l2 -> (quality_of_loss l2 <= quality_of_loss l1)%Z.
Proof.
  intros H. unfold quality_of_loss.
  assert (Hr : (Num.Math_round ((1 - l2) * 100) <= Num.Math_round ((1 - l1) * 100))%Z).
  { apply Math_round_mono. lra. }
  lia.
Qed.

(** C7. The score the service attaches to a result is
    [round(clamp((1 - finalLoss) * 100, 0, 100))], and a larger final loss
    never gives a larger score. *)
Theorem qualityScore_formula_and_monotone (finalLoss1 finalLoss2 : R)
    (H : finalLoss1 < finalLoss2) :
  quality_of_loss finalLoss1 = Spec.qualityScore finalLoss1
  /\ quality_of_loss finalLoss2 = Spec.qualityScore finalLoss2
  /\ (quality_of_loss finalLoss1 >= quality_of_loss finalLoss2)%Z.
Proof.
  split; [apply quality_of_loss_spec|].
  split; [apply quality_of_loss_spec|].
  apply Z.le_ge, quality_of_loss_antitone. lra.
Qed.

Lemma qualityScore_formula_and_monotone_witness :
  0.1 < 0.2
  /\ quality_of_loss 0.1 = Spec.qualityScore 0.1
  /\ quality_of_loss 0.2 = Spec.qualityScore 0.2
  /\ (quality_of_loss 0.1 >= quality_of_loss 0.2)%Z.
Proof.
  split; [lra | apply (qualityScore_formula_and_monotone 0.1 0.2); lra].
Defined.

End QualityScore.

(** ** The couplet service *)

Section Service.

Import Gemini Failure.

(** Case analysis on the head of a chain of [bind]s. *)
Ltac step_bind :=
  match goal with
  | |- context [bind ?c _] =>
      let E := fresh "E" in destruct c eqn:E; cbn [bind] in *
  | |- context [match ?c with _ => _ end] =>
      let E := fresh "E" in destruct c eqn:E; cbn [bind] in *
  end.

Lemma try_body_success (w : World) (upper0 : string) (m : ModelType)
    (ctx : option TrainingContext) (r : CoupletResult) :
  try_body w upper0 m ctx = inr r ->
  upper r = upper0
  /\ qualityScore r = Some (quality_of_loss (context_loss ctx)).
Proof.
  unfold try_body, ret, throw.
  repeat (step_bind; try discriminate);
    intros H; inversion H; subst; cbn; auto.
Qed.

Lemma Math_round_90 : Num.Math_round ((1 - 0.1) * 100) = 90%Z.
Proof.
  replace ((1 - 0.1) * 100) with (IZR 90) by lra.
  apply Math_round_IZR.
Qed.

Lemma quality_of_default_loss : quality_of_loss 0.1 = 90%Z.
Proof. unfold quality_of_loss. rewrite Math_round_90. reflexivity. Qed.

Lemma default_loss_converged :
  isConverged 0.1 = true /\ isUnderfitted 0.1 = false.
Proof.
  unfold isConverged, isUnderfitted.
  destruct (Rlt_dec 0.1 0.2); destruct (Rlt_dec 0.4 0.1); try lra; auto.
Qed.

(** C10. Without a training context the loss defaults to 0.1; the prompt
    then carries the "converged" block and label, not the "underfitted"
    ones, and a result of the [try] block has quality score 90 and is what
    the promise is fulfilled with. *)
Theorem default_context_is_converged (w : World) (upper0 : string) (m : ModelType)
    (r : CoupletResult) (H : try_body w upper0 m None = inr r) :
  context_loss None = 0.1
  /\ isConverged (context_loss None) = true
  /\ isUnderfitted (context_loss None) = false
  /\ systemPrompt upper0 m (context_loss None)
     = (header upper0 m 0.1 ++ converged_block 0.1 ++ architecture_block m)%list
  /\ status_label (context_loss None) = "收敛良好 (Low Loss, 训练充分)"
  /\ qualityScore r = Some 90%Z
  /\ generateCouplet w upper0 m None = Fulfilled r.
Proof.
  destruct default_loss_converged as [Hc Hu].
  cbn [context_loss].
  repeat split; auto.
  - unfold systemPrompt, quality_block. now rewrite Hu, Hc.
  - unfold status_label. now rewrite Hu, Hc.
  - apply try_body_success in H. destruct H as [_ H].
    rewrite H. cbn [context_loss]. now rewrite quality_of_default_loss.
  - unfold generateCouplet. now rewrite H.
Qed.

Lemma default_context_is_converged_witness :
  qualityScore {| upper := "x"; lower := JStr "l"; explanation := JStr "e";
                  qualityScore := Some (quality_of_loss 0.1) |} = Some 90%Z
  /\ generateCouplet answering_world "x" lstm None
     = Fulfilled {| upper := "x"; lower := JStr "l"; explanation := JStr "e";
                    qualityScore := Some (quality_of_loss 0.1) |}.
Proof.
  pose proof (default_context_is_converged answering_world "x" lstm
                {| upper := "x"; lower := JStr "l"; explanation := JStr "e";
                   qualityScore := Some (quality_of_loss 0.1) |} eq_refl) as H.
  split; apply H.
Defined.

Lemma occurs_throws (c : Cause) (w : World) (upper0 : string) (m : ModelType)
    (ctx : option TrainingContext) :
  occurs c w upper0 m ctx ->
  try_body w upper0 m ctx = inl (mkError (cause_message c)).
Proof.
  destruct c; cbn [occurs cause_message]; unfold answered, try_body, throw, ret.
  - intros [H | H]; rewrite H; reflexivity.
  - intros (resp & (k & Hk & Hne & Hf) & Hok & Hst & Ht).
    rewrite Hk, Hne. cbn [bind]. rewrite Hf. cbn [bind].
    rewrite Hok. cbn [negb bind]. rewrite Ht, Hst. reflexivity.
  - intros (resp & data & text & (k & Hk & Hne & Hf) & Hok & Hj & Hx & Ht).
    rewrite Hk, Hne. cbn [bind]. rewrite Hf. cbn [bind].
    rewrite Hok. cbn [negb bind]. rewrite Hj. cbn [bind].
    rewrite Hx. cbn [bind]. rewrite Ht. reflexivity.
  - intros (resp & (k & Hk & Hne & Hf) & Hok & Hc).
    rewrite Hk, Hne. cbn [bind]. rewrite Hf. cbn [bind].
    rewrite Hok. cbn [negb bind].
    destruct Hc as [Hj | (data & text & Hj & Hx & Ht & Hp)].
    + rewrite Hj. destruct e. reflexivity.
    + rewrite Hj. cbn [bind]. rewrite Hx. cbn [bind]. rewrite Ht. cbn [negb bind].
      rewrite Hp. destruct e. reflexivity.
Qed.

(** C6. The promise of [generateCouplet] is always fulfilled, never
    rejected. When the [try] block throws an error, for whatever reason, the
    result has the sentinel text, quality score 0 and an explanation that
    ends with the error's message; a missing key, a non-OK status, an empty
    response and unparseable output each make it throw, with the message
    that names the cause. *)
Theorem generateCouplet_degrades (w : World) (upper0 : string) (m : ModelType)
    (ctx : option TrainingContext) :
  (exists r, generateCouplet w upper0 m ctx = Fulfilled r)
  /\ (forall e, try_body w upper0 m ctx = inl e ->
        generateCouplet w upper0 m ctx
        = Fulfilled {| upper := upper0;
                       lower := JStr "调用失败";
                       explanation :=
                         JStr ("请确保已配置 Google Gemini API Key。错误详情: "
                               ++ message e);
                       qualityScore := Some 0%Z |})
  /\ (forall c, occurs c w upper0 m ctx ->
        try_body w upper0 m ctx = inl (mkError (cause_message c))).
Proof.
  split; [|split].
  - unfold generateCouplet. destruct (try_body w upper0 m ctx); eauto.
  - intros e He. unfold generateCouplet. rewrite He. reflexivity.
  - intros c Hc. now apply occurs_throws.
Qed.

Lemma generateCouplet_degrades_witness :
  generateCouplet no_key_world "x" rnn None
  = Fulfilled {| upper := "x";
                 lower := JStr "调用失败";
                 explanation :=
                   JStr ("请确保已配置 Google Gemini API Key。错误详情: "
                         ++ "API Key is missing");
                 qualityScore := Some 0%Z |}.
Proof.
  destruct (generateCouplet_degrades no_key_world "x" rnn None) as (_ & Hdeg & Hocc).
  apply (Hdeg (mkError "API Key is missing")).
  apply (Hocc MissingKey). left. reflexivity.
Defined.

End Service.

(** ** The guided stepper *)

Section StepperFacts.

Import Stepper.
Local Open Scope Z_scope.

Lemma STEPS_DATA_length (m : ModelType) : List.length (STEPS_DATA m) = 4%nat.
Proof. destruct m; reflexivity. Qed.

Lemma initial_in_bounds : in_bounds initial.
Proof. unfold in_bounds, steps. rewrite STEPS_DATA_length. cbn. lia. Qed.

Lemma handleTabChange_in_bounds (a : ModelType) (s : App) :
  in_bounds (handleTabChange a s).
Proof. unfold in_bounds, steps. rewrite STEPS_DATA_length. cbn. lia. Qed.

Lemma next_in_bounds (s : App) : in_bounds s -> in_bounds (next s).
Proof.
  unfold in_bounds, next, click, next_disabled, next_onClick, steps.
  intros H. destruct (Z.eqb_spec (stepIndex s) (Z.of_nat (List.length (STEPS_DATA (activeTab s))) - 1)).
  - exact H.
  - cbn. lia.
Qed.

Lemma previous_in_bounds (s : App) : in_bounds s -> in_bounds (previous s).
Proof.
  unfold in_bounds, previous, click, previous_disabled, previous_onClick, steps.
  intros H. destruct (Z.eqb_spec (stepIndex s) 0).
  - exact H.
  - cbn. lia.
Qed.

Lemma apply_in_bounds (o : Op) (s : App) : in_bounds s -> in_bounds (apply o s).
Proof.
  destruct o; cbn [apply]; intros H.
  - apply handleTabChange_in_bounds.
  - now apply next_in_bounds.
  - now apply previous_in_bounds.
Qed.

Lemma run_in_bounds (ops : list Op) : forall s, in_bounds s -> in_bounds (run ops s).
Proof.
  unfold run. induction ops as [| o ops IH]; intros s H; cbn [fold_left].
  - exact H.
  - apply IH. now apply apply_in_bounds.
Qed.

(** C3. After any finite sequence of architecture selections and button
    clicks from the initial state, the step index is a valid index of the
    active architecture's steps, so a current step exists; [next] at the last
    index and [previous] at index 0 leave the state as it is; selecting an
    architecture puts the index at 0. *)
Theorem stepper_stays_in_bounds (ops : list Op) :
  let s := run ops initial in
  0 <= stepIndex s < Z.of_nat (List.length (STEPS_DATA (activeTab s)))
  /\ (exists d, currentStep s = Some d)
  /\ (stepIndex s = Z.of_nat (List.length (STEPS_DATA (activeTab s))) - 1 -> next s = s)
  /\ (stepIndex s = 0 -> previous s = s)
  /\ (forall a, stepIndex (handleTabChange a s) = 0 /\ activeTab (handleTabChange a s) = a).
Proof.
  intros s.
  assert (H : in_bounds s) by (apply run_in_bounds, initial_in_bounds).
  unfold in_bounds, steps in H.
  split; [exact H|].
  split.
  { unfold currentStep, steps.
    destruct (Z.ltb_spec (stepIndex s) 0); [lia|].
    destruct (nth_error (STEPS_DATA (activeTab s)) (Z.to_nat (stepIndex s))) eqn:E.
    - eauto.
    - apply nth_error_None in E. lia. }
  split.
  { intros Hl. unfold next, click, next_disabled, steps.
    rewrite Hl. now rewrite Z.eqb_refl. }
  split.
  { intros H0. unfold previous, click, previous_disabled.
    rewrite H0. reflexivity. }
  intros a. split; reflexivity.
Qed.

Lemma stepper_stays_in_bounds_witness :
  let s := run [SelectArchitecture rnn; Next; Next; Next; Next; Previous] initial in
  stepIndex s = 2 /\ next (next s) = next s.
Proof.
  split; [reflexivity|].
  destruct (stepper_stays_in_bounds
              [SelectArchitecture rnn; Next; Next; Next; Next; Previous; Next])
    as (_ & _ & Hn & _).
  apply Hn. reflexivity.
Defined.

End StepperFacts.

(** ** Rounding and the loss of one tick *)

Section TickFacts.

Import Lab Invariant.

Lemma nearest_milli_bounds (c : R) :
  0 <= c <= 1 -> (0 <= Num.nearest_milli c <= 1000)%Z.
Proof.
  intros [H0 H1]. unfold Num.nearest_milli. split.
  - apply Zfloor_lub. lra.
  - assert (H : (Zfloor (c * 1000 + / 2) <= Zfloor (IZR 1000 + / 2))%Z)
      by (apply Zfloor_le; lra).
    rewrite (Zfloor_eq 1000 (IZR 1000 + / 2)) in H by lra. exact H.
Qed.

Lemma toFixed3_nonneg (c : R) :
  0 <= c -> Num.toFixed3 c = IZR (Num.nearest_milli c) / 1000.
Proof.
  intros H. unfold Num.toFixed3. destruct (Rlt_dec c 0); [lra | reflexivity].
Qed.

Lemma toFixed3_unit (c : R) : 0 <= c <= 1 -> 0 <= Num.toFixed3 c <= 1.
Proof.
  intros H. rewrite toFixed3_nonneg by lra.
  destruct (nearest_milli_bounds c H) as [Hl Hu].
  apply IZR_le in Hl, Hu. lra.
Qed.

(** A multiple of one thousandth is its own rounding. *)
Lemma toFixed3_milli (z : Z) : (0 <= z)%Z -> Num.toFixed3 (IZR z / 1000) = IZR z / 1000.
Proof.
  intros Hz. apply IZR_le in Hz.
  rewrite toFixed3_nonneg by lra.
  unfold Num.nearest_milli.
  rewrite (Zfloor_eq z) by lra. reflexivity.
Qed.

(** The thousandths of [c] and of [1 - c], each rounded on its own. *)
Lemma rounding_pair (c : R) :
  0 <= c <= 1 ->
  let n1 := Num.nearest_milli c in
  let n2 := Num.nearest_milli (1 - c) in
  (0 <= n1 <= 1000)%Z /\ (0 <= n2 <= 1000)%Z
  /\ ((n1 + n2 = 1000)%Z \/ (n1 + n2 = 1001)%Z).
Proof.
  intros Hc n1 n2.
  split; [now apply nearest_milli_bounds|].
  split; [apply nearest_milli_bounds; lra|].
  pose proof (Zfloor_bound (c * 1000 + / 2)) as H1.
  pose proof (Zfloor_bound ((1 - c) * 1000 + / 2)) as H2.
  fold (Num.nearest_milli c) in H1. fold (Num.nearest_milli (1 - c)) in H2.
  fold n1 in H1. fold n2 in H2.
  assert (Hlo : (999 < n1 + n2)%Z).
  { apply lt_IZR. rewrite plus_IZR. lra. }
  assert (Hhi : (n1 + n2 <= 1001)%Z).
  { apply le_IZR. rewrite plus_IZR. lra. }
  lia.
Qed.

Lemma exp_neg_le_half (x : R) : 1 <= x -> exp (- x) <= / 2.
Proof.
  intros Hx. rewrite exp_Ropp.
  pose proof (exp_ineq1_le x) as H.
  apply Rinv_le_contravar; lra.
Qed.

Lemma clamp01_unit (x : R) : 0 <= Num.clamp01 x <= 1.
Proof.
  unfold Num.clamp01, Rmax, Rmin.
  repeat (destruct (Rle_dec _ _)); lra.
Qed.

Lemma clamp01_id (x : R) : 0 <= x <= 1 -> Num.clamp01 x = x.
Proof.
  intros H. unfold Num.clamp01, Rmax, Rmin.
  repeat (destruct (Rle_dec _ _)); lra.
Qed.

Lemma lrFactor_of_valid (lr : R) :
  valid_learningRate lr -> 0.5 <= lrFactor_of lr <= 1.
Proof.
  unfold lrFactor_of.
  destruct (Req_dec_T lr 0.01); destruct (Rlt_dec 0.05 lr); lra.
Qed.

Lemma targetLoss_of_valid (lr u : R) :
  valid_learningRate lr -> 0 <= u < 1 ->
  lr + 0.04 <= targetLoss_of lr u < 0.35.
Proof.
  unfold targetLoss_of, valid_learningRate.
  intros [H | [H | H]] Hu; subst lr; destruct (Rlt_dec _ _); lra.
Qed.

Lemma progressRatio_good (r : Run) :
  good_run r -> 0 < progressRatio r <= 1.
Proof.
  intros (_ & _ & _ & _ & Hc). unfold progressRatio.
  assert (Hn : 0 < IZR (totalEpochs r)) by (apply IZR_lt; lia).
  assert (Hk : 0 < IZR (currentEpoch r + 1)) by (apply IZR_lt; lia).
  assert (Hle : IZR (currentEpoch r + 1) <= IZR (totalEpochs r)) by (apply IZR_le; lia).
  split.
  - apply Rdiv_lt_0_compat; assumption.
  - apply (Rmult_le_reg_r (IZR (totalEpochs r))); [assumption|].
    unfold Rdiv. rewrite Rmult_assoc, Rinv_l by lra. lra.
Qed.

(** The sum the clamp is applied to lies strictly between 0 and 0.95 once
    more than half of the epochs are done. *)
Lemma back_half_raw (r : Run) (u1 : R) :
  good_run r -> 0 <= u1 < 1 -> 0.5 < progressRatio r ->
  let raw := targetLoss r + exp (- progressRatio r * 5 * lrFactor r) * (1 - targetLoss r)
             + (u1 - 0.5) * (learningRate (run_params r) * 2) in
  0 < raw < 0.95.
Proof.
  intros Hg Hu Hp.
  pose proof (progressRatio_good r Hg) as Hpr.
  destruct Hg as ((_ & Hlr) & _ & Hf & (u & Hu0 & HT) & _).
  pose proof (lrFactor_of_valid _ Hlr) as Hfb. rewrite <- Hf in Hfb.
  pose proof (targetLoss_of_valid _ u Hlr Hu0) as HTb. rewrite <- HT in HTb.
  set (d := exp (- progressRatio r * 5 * lrFactor r)).
  assert (Hd0 : 0 < d) by apply exp_pos.
  assert (Hd1 : d <= / 2).
  { unfold d. replace (- progressRatio r * 5 * lrFactor r)
      with (- (progressRatio r * 5 * lrFactor r)) by ring.
    apply exp_neg_le_half. nra. }
  assert (Hlr' : 0.001 <= learningRate (run_params r) <= 0.1)
    by (destruct Hlr as [H | [H | H]]; rewrite H; lra).
  cbv zeta. nra.
Qed.

(** The loss of a tick of a valid run lies in the unit interval and is what
    adding the instability term before the clamp gives. *)
Lemma tick_loss_valid (r : Run) (u1 u2 : R) :
  good_run r -> 0 <= u1 < 1 -> 0 <= u2 < 1 ->
  0 <= tick_loss r u1 u2 <= 1 /\ tick_loss r u1 u2 = Spec.tick_loss r u1 u2.
Proof.
  intros Hg Hu1 Hu2. unfold tick_loss, Spec.tick_loss.
  destruct (unstable r) eqn:Hun.
  - assert (Hp : 0.5 < progressRatio r).
    { unfold unstable in Hun. apply andb_prop in Hun. destruct Hun as [_ Hun].
      destruct (Rlt_dec 0.5 (progressRatio r)); [assumption | discriminate]. }
    pose proof (back_half_raw r u1 Hg Hu1 Hp) as Hraw. cbv zeta in Hraw.
    fold (Num.clamp01 (targetLoss r
            + exp (- progressRatio r * 5 * lrFactor r) * (1 - targetLoss r)
            + (u1 - 0.5) * (learningRate (run_params r) * 2))).
    rewrite clamp01_id by lra.
    rewrite clamp01_id by lra.
    split; [lra | reflexivity].
  - split; [apply clamp01_unit | reflexivity].
Qed.

End TickFacts.

(** ** The capped history *)

Section HistoryFacts.

Import Lab Invariant.
Local Open Scope list_scope.

Lemma push_metric_evicts_oldest (x : TrainingMetric) (prev : list TrainingMetric) :
  (List.length prev <= 50)%nat ->
  push_metric x prev
  = (if Nat.eqb (List.length prev) 50 then tl prev else prev) ++ [x].
Proof.
  intros Hlen. unfold push_metric. rewrite length_app. cbn [List.length].
  destruct (Nat.ltb_spec 50 (List.length prev + 1)) as [Hgt | Hle].
  - assert (H50 : List.length prev = 50%nat) by lia.
    rewrite H50. cbn [Nat.eqb Nat.add Nat.sub].
    destruct prev as [| y prev']; [discriminate | reflexivity].
  - destruct (Nat.eqb_spec (List.length prev) 50); [lia | reflexivity].
Qed.

Lemma push_metric_length (x : TrainingMetric) (prev : list TrainingMetric) :
  (List.length prev <= 50)%nat -> (List.length (push_metric x prev) <= 50)%nat.
Proof.
  intros Hlen. rewrite push_metric_evicts_oldest by assumption.
  rewrite length_app. cbn [List.length].
  destruct (Nat.eqb_spec (List.length prev) 50) as [H50 | Hne].
  - destruct prev; cbn in *; lia.
  - lia.
Qed.

Lemma push_metric_recent (x : TrainingMetric) (prev older : list TrainingMetric) :
  exists older', older ++ prev ++ [x] = older' ++ push_metric x prev.
Proof.
  unfold push_metric.
  destruct (50 <? List.length (prev ++ [x]))%nat.
  - exists (older ++ firstn (List.length (prev ++ [x]) - 50) (prev ++ [x])).
    rewrite <- app_assoc. f_equal. symmetry. apply firstn_skipn.
  - exists older. reflexivity.
Qed.

Lemma ascending_from_app (e : Z) (l : list TrainingMetric) (x : TrainingMetric) :
  ascending_from e l -> epoch x = (e + Z.of_nat (List.length l))%Z ->
  ascending_from e (l ++ [x]).
Proof.
  revert e. induction l as [| m l IH]; intros e Hl Hx; cbn in *.
  - split; [lia | exact I].
  - destruct Hl as [Hm Hl]. split; [assumption|].
    apply IH; [assumption | lia].
Qed.

Lemma ascending_from_tl (e : Z) (l : list TrainingMetric) :
  ascending_from e l -> ascending_from (e + 1) (tl l).
Proof. destruct l; cbn; [auto | intros [_ H]; exact H]. Qed.

Lemma push_metric_ascending (e : Z) (x : TrainingMetric) (prev : list TrainingMetric) :
  (List.length prev <= 50)%nat ->
  ascending_from e prev -> epoch x = (e + Z.of_nat (List.length prev))%Z ->
  exists e', ascending_from e' (push_metric x prev)
    /\ (e' + Z.of_nat (List.length (push_metric x prev))
        = e + Z.of_nat (List.length prev) + 1)%Z.
Proof.
  intros Hlen Hasc Hx. rewrite push_metric_evicts_oldest by assumption.
  destruct (Nat.eqb_spec (List.length prev) 50) as [H50 | Hne].
  - exists (e + 1)%Z. split.
    + apply ascending_from_app.
      * now apply ascending_from_tl.
      * destruct prev; cbn in *; lia.
    + rewrite length_app. destruct prev; cbn in *; lia.
  - exists e. split.
    + now apply ascending_from_app.
    + rewrite length_app. cbn. lia.
Qed.

End HistoryFacts.

(** ** Timers and history over all reachable states *)

Section StructuralFacts.

Import Lab Invariant.
Local Open Scope list_scope.

Variable rand : nat -> R.

Lemma status_training_dec (s : State) : {status s = training} + {status s <> training}.
Proof. destruct (status s); (left; reflexivity) || (right; discriminate). Qed.

Lemma Status_eqb_spec (a b : Status) : reflect (a = b) (Status_eqb a b).
Proof. destruct a, b; constructor; congruence. Qed.

Lemma ModelType_eqb_spec (a b : ModelType) : reflect (a = b) (ModelType_eqb a b).
Proof. destruct a, b; constructor; congruence. Qed.

Lemma initial_structural (m : ModelType) : structural (initial m).
Proof.
  split; cbn; try tauto; try lia.
  - exists []. reflexivity.
  - exists 0%Z. split; [exact I | tauto].
Qed.

(** One tick, run in a state without pending timer. *)
Lemma trainStep_structural (r : Run) (s : State) (e : Z) :
  timers s = [] -> nextTimerId s <> 0%nat ->
  (List.length (metrics s) <= 50)%nat ->
  (exists older, emitted s = older ++ metrics s) ->
  ascending_from e (metrics s) ->
  (currentEpoch r + 1 = e + Z.of_nat (List.length (metrics s)))%Z ->
  status s = training ->
  structural (trainStep rand r s).
Proof.
  intros Ht Hid Hcap [older Hrec] Hasc Hep Hst. unfold trainStep.
  set (x := {| epoch := (currentEpoch r + 1)%Z;
               loss := Num.toFixed3 (tick_loss r (rand (draws s)) (rand (S (draws s))));
               accuracy := Num.toFixed3
                 (1 - tick_loss r (rand (draws s)) (rand (S (draws s)))) |}).
  destruct (push_metric_ascending e x (metrics s) Hcap Hasc Hep) as (e' & Hasc' & He').
  destruct (push_metric_recent x (metrics s) older) as [older' Hrec'].
  destruct (Z.ltb_spec (currentEpoch r + 1) (totalEpochs r)); split; cbn;
    fold x; rewrite ?Ht, ?Hrec; cbn [app In];
    try (now apply push_metric_length); try lia; try tauto.
  - intros t [<- | []]. cbn. auto.
  - exists older'. now rewrite <- app_assoc.
  - exists e'. split; [assumption|]. intros t [<- | []]. cbn. lia.
  - exists older'. now rewrite <- app_assoc.
  - exists e'. split; [assumption | tauto].
Qed.

Lemma startTraining_structural (s : State) :
  structural s -> status s <> training -> structural (startTraining rand s).
Proof.
  intros [H1 H2 H3 H4 [older H5] H6] Hst. unfold startTraining.
  apply (trainStep_structural _ _ 1%Z); cbn; auto; try lia.
  exists (emitted s). now rewrite app_nil_r.
Qed.

(** All pending timers carry the referenced id, so clearing it empties the
    table. *)
Lemma clear_referenced (s : State) (id : nat) :
  structural s -> trainingRef s = Some id ->
  filter (fun t => negb (Nat.eqb (timer_id t) id)) (timers s) = [].
Proof.
  intros Hs Href.
  pose proof (timer_is_referenced s Hs) as H2.
  induction (timers s) as [| t ts IH]; cbn; [reflexivity|].
  destruct (H2 t (or_introl eq_refl)) as [Ht _].
  assert (Hid : timer_id t = id) by congruence.
  rewrite Hid, Nat.eqb_refl. cbn. apply IH.
  intros t' Hin. apply H2. now right.
Qed.

Lemma fire_structural (id : nat) (s : State) :
  structural s -> structural (fire rand id s).
Proof.
  intros Hs. unfold fire, find_timer.
  destruct (find (fun t => Nat.eqb (timer_id t) id) (timers s)) as [t |] eqn:Hf;
    [| exact Hs].
  apply find_some in Hf. destruct Hf as [Hin Hid].
  apply Nat.eqb_eq in Hid.
  destruct (timer_is_referenced s Hs t Hin) as [Href _].
  rewrite Hid in Href.
  destruct (history_in_order s Hs) as (e & Hasc & Hep).
  apply (trainStep_structural _ _ e); cbn.
  - now apply clear_referenced.
  - apply (next_id_positive s Hs).
  - apply (history_capped s Hs).
  - apply (history_is_recent s Hs).
  - exact Hasc.
  - now apply Hep.
  - destruct (status_training_dec s) as [Htr | Hn]; [assumption|].
    rewrite (no_timer_unless_training s Hs Hn) in Hin. destruct Hin.
Qed.

Lemma resetLab_fields (s : State) :
  structural s ->
  status (resetLab s) = idle /\ metrics (resetLab s) = []
  /\ timers (resetLab s) = [] /\ emitted (resetLab s) = emitted s
  /\ nextTimerId (resetLab s) = nextTimerId s
  /\ finalLoss (resetLab s) = 1.0.
Proof.
  intros Hs. unfold resetLab. cbn.
  destruct (trainingRef s) as [id |] eqn:Href.
  - destruct (Nat.eqb_spec id 0) as [H0 | Hn]; cbn.
    + repeat split; auto.
      destruct (timers s) as [| t ts] eqn:Ht; [reflexivity|].
      destruct (timer_is_referenced s Hs t) as [Ha Hb]; [rewrite Ht; now left|].
      congruence.
    + repeat split; auto. now apply clear_referenced.
  - cbn. repeat split; auto.
    destruct (timers s) as [| t ts] eqn:Ht; [reflexivity|].
    destruct (timer_is_referenced s Hs t) as [Ha Hb]; [rewrite Ht; now left|].
    congruence.
Qed.

Lemma resetLab_structural (s : State) : structural s -> structural (resetLab s).
Proof.
  intros Hs.
  destruct (resetLab_fields s Hs) as (Hst & Hm & Ht & He & Hn & _).
  split; rewrite ?Hst, ?Hm, ?Ht, ?He, ?Hn; cbn; try tauto; try lia.
  - apply (next_id_positive s Hs).
  - exists (emitted s). now rewrite app_nil_r.
  - exists 0%Z. split; [exact I | tauto].
Qed.

(** A state that differs only in fields the invariant does not mention. *)
Lemma structural_same (s s' : State) :
  structural s ->
  (status s' <> training -> status s <> training) ->
  timers s' = timers s -> trainingRef s' = trainingRef s ->
  nextTimerId s' = nextTimerId s -> metrics s' = metrics s ->
  emitted s' = emitted s ->
  structural s'.
Proof.
  intros [H1 H2 H3 H4 H5 H6] Hst Ht Hr Hn Hm He.
  split; rewrite ?Ht, ?Hr, ?Hn, ?Hm, ?He; auto.
Qed.

Lemma handleParamChange_structural (np : option Z * option R) (s : State) :
  structural s -> status s <> training -> structural (handleParamChange np s).
Proof.
  intros Hs Hst. apply (structural_same s); auto;
    unfold handleParamChange; cbn; destruct (Status_eqb (status s) completed);
    cbn; auto.
Qed.

Lemma step_structural (s : State) (ev : Event) :
  structural s -> structural (step rand s ev).
Proof.
  intros Hs. unfold step.
  destruct (disabled ev s) eqn:Hd; [exact Hs|].
  destruct ev; cbn [handle disabled] in *.
  - apply handleParamChange_structural; [assumption|].
    destruct (Status_eqb_spec (status s) training); [discriminate | assumption].
  - apply handleParamChange_structural; [assumption|].
    destruct (Status_eqb_spec (status s) training); [discriminate | assumption].
  - apply startTraining_structural; [assumption|].
    destruct (Status_eqb_spec (status s) training); [discriminate | assumption].
  - unfold handleGenerate. destruct (blank testInput); [assumption|].
    apply (structural_same s); auto.
  - unfold generation_settles.
    destruct (inflight s) as [[result | reason] |]; try assumption;
      apply (structural_same s); auto.
  - now apply fire_structural.
  - unfold receive_modelType.
    destruct (ModelType_eqb m (modelType s)); [assumption|].
    apply resetLab_structural. apply (structural_same s); auto.
Qed.

Lemma run_structural (evs : list Event) :
  forall s, structural s -> structural (run rand evs s).
Proof.
  unfold run. induction evs as [| ev evs IH]; intros s Hs; cbn [fold_left].
  - exact Hs.
  - apply IH. now apply step_structural.
Qed.

End StructuralFacts.

(** ** A run from start to completion *)

Section TraceFacts.

Import Lab Trace.
Local Open Scope list_scope.

Variable rand : nat -> R.
Variable s0 : State.

Let n : Z := epochs (params s0).

Lemma samples_length (k : nat) : List.length (samples rand s0 k) = k.
Proof. unfold samples. now rewrite length_map, length_seq. Qed.

Lemma samples_succ (k : nat) :
  samples rand s0 (S k) = samples rand s0 k ++ [sample_at rand s0 k].
Proof. unfold samples. rewrite seq_S, map_app. reflexivity. Qed.

Lemma samples_epochs (k : nat) :
  map epoch (samples rand s0 k) = map (fun i => Z.of_nat i + 1)%Z (seq 0 k).
Proof. unfold samples. rewrite map_map. reflexivity. Qed.

Lemma samples_nth (k i : nat) :
  (i < k)%nat -> nth_error (samples rand s0 k) i = Some (sample_at rand s0 i).
Proof.
  induction k as [| k IH]; intros Hi; [lia|].
  rewrite samples_succ.
  destruct (Nat.eq_dec i k) as [-> | Hne].
  - rewrite nth_error_app2 by (rewrite samples_length; lia).
    rewrite samples_length, Nat.sub_diag. reflexivity.
  - rewrite nth_error_app1 by (rewrite samples_length; lia).
    apply IH. lia.
Qed.

(** The history keeps the last fifty samples. *)
Lemma push_metric_window (k : nat) :
  push_metric (sample_at rand s0 k) (skipn (k - 50) (samples rand s0 k))
  = skipn (S k - 50) (samples rand s0 (S k)).
Proof.
  rewrite push_metric_evicts_oldest
    by (rewrite length_skipn, samples_length; lia).
  rewrite length_skipn, samples_length, samples_succ.
  destruct (Nat.eqb_spec (k - (k - 50)) 50) as [H50 | Hlt].
  - replace (S k - 50)%nat with (S (k - 50)) by lia.
    rewrite skipn_app, samples_length.
    replace (S (k - 50) - k)%nat with 0%nat by lia. cbn [skipn].
    f_equal. clear. generalize (samples rand s0 k) as l.
    induction (k - 50)%nat as [| j IH]; intros l; destruct l; cbn; auto.
  - replace (S k - 50)%nat with 0%nat by lia.
    replace (k - 50)%nat with 0%nat by lia. reflexivity.
Qed.

(** Tick [k + 1], run in the state the first [k] ticks left, with the
    timer table empty. *)
Lemma trainStep_trace (k : nat) (s : State) :
  timers s = [] ->
  emitted s = emitted s0 ++ samples rand s0 k ->
  metrics s = skipn (k - 50) (samples rand s0 k) ->
  draws s = draws_before rand s0 k ->
  status s = training ->
  finalLoss s = finalLoss s0 ->
  ((Z.of_nat (S k) < n)%Z -> running rand s0 (S k) (trainStep rand (closure rand s0 k) s))
  /\ ((n <= Z.of_nat (S k))%Z ->
      finished rand s0 (S k) (trainStep rand (closure rand s0 k) s)).
Proof.
  intros Ht He Hm Hd Hst Hf.
  assert (Hx : {| epoch := currentEpoch (closure rand s0 k) + 1;
                  loss := Num.toFixed3
                    (tick_loss (closure rand s0 k) (rand (draws s)) (rand (S (draws s))));
                  accuracy := Num.toFixed3
                    (1 - tick_loss (closure rand s0 k) (rand (draws s))
                           (rand (S (draws s)))) |}
               = sample_at rand s0 k).
  { rewrite Hd. reflexivity. }
  assert (Hc : mkRun (Z.of_nat k + 1) n (lrFactor (closure rand s0 k))
                 (targetLoss (closure rand s0 k)) (params s0) (modelType s0)
               = closure rand s0 (S k)).
  { unfold closure. rewrite Nat2Z.inj_succ. reflexivity. }
  unfold trainStep. rewrite Hx.
  change (totalEpochs (closure rand s0 k)) with n.
  change (currentEpoch (closure rand s0 k)) with (Z.of_nat k).
  split; intros Hk.
  - destruct (Z.ltb_spec (Z.of_nat k + 1) n); [| lia].
    unfold running. cbn -[closure skipn Nat.sub].
    rewrite Hm, He, Ht, push_metric_window, <- app_assoc, <- samples_succ, Hd.
    repeat split; auto.
    exists (nextTimerId s). cbn [app]. now rewrite <- Hc.
  - destruct (Z.ltb_spec (Z.of_nat k + 1) n); [lia|].
    unfold finished. cbn -[closure skipn Nat.sub].
    rewrite Hm, He, Ht, push_metric_window, <- app_assoc, <- samples_succ, Hd.
    repeat split; auto.
    replace (S k - 1)%nat with k by lia. reflexivity.
Qed.

End TraceFacts.

Section RunFacts.

Import Lab Trace.
Local Open Scope list_scope.

Variable rand : nat -> R.
Variable s0 : State.

Hypothesis start_enabled : status s0 <> training.
Hypothesis no_timer : timers s0 = [].

Let n : Z := epochs (params s0).

Lemma step_start : step rand s0 StartClick = startTraining rand s0.
Proof.
  unfold step. cbn [disabled handle].
  destruct (Status_eqb_spec (status s0) training); [contradiction | reflexivity].
Qed.

Lemma first_tick :
  ((1 < n)%Z -> running rand s0 1 (after_ticks rand s0 1))
  /\ ((n <= 1)%Z -> finished rand s0 1 (after_ticks rand s0 1)).
Proof.
  unfold after_ticks. cbn [Nat.sub Nat.iter]. rewrite step_start.
  unfold startTraining.
  apply (trainStep_trace rand s0 0); cbn; auto.
  now rewrite app_nil_r.
Qed.

Lemma tick_of_running (k : nat) (s : State) :
  running rand s0 k s ->
  ((Z.of_nat (S k) < n)%Z -> running rand s0 (S k) (tick rand s))
  /\ ((n <= Z.of_nat (S k))%Z -> finished rand s0 (S k) (tick rand s)).
Proof.
  intros (He & Hm & Hd & Hst & Hf & id & Ht).
  unfold tick. rewrite Ht. cbn [timer_id]. unfold fire, find_timer.
  rewrite Ht. cbn [find timer_id]. rewrite Nat.eqb_refl. cbn [timer_run].
  apply trainStep_trace; cbn; auto.
  rewrite Ht. cbn. now rewrite Nat.eqb_refl.
Qed.

Lemma tick_of_finished (k : nat) (s : State) :
  finished rand s0 k s -> tick rand s = s.
Proof.
  intros (_ & _ & _ & _ & _ & Ht). unfold tick. now rewrite Ht.
Qed.

(** The state after [k] ticks, for every [k] up to the number of epochs. *)
Lemma after_ticks_trace (k : nat) :
  (1 <= k)%nat ->
  ((Z.of_nat k < n)%Z -> running rand s0 k (after_ticks rand s0 k))
  /\ ((Z.of_nat k = n \/ (k = 1%nat /\ (n <= 1)%Z)) ->
       finished rand s0 k (after_ticks rand s0 k)).
Proof.
  induction k as [| k IH]; [lia|]. intros _.
  destruct k as [| j].
  - destruct first_tick as [Hr Hf]. split; [exact Hr|].
    intros H. apply Hf. lia.
  - assert (Hstep : after_ticks rand s0 (S (S j))
                    = tick rand (after_ticks rand s0 (S j))).
    { unfold after_ticks. cbn [Nat.sub]. rewrite Nat.sub_0_r. reflexivity. }
    rewrite Hstep. destruct IH as [IHr _]; [lia|].
    split.
    + intros Hlt. apply (tick_of_running (S j)); [apply IHr; lia | exact Hlt].
    + intros [Heq | [Hk _]]; [| discriminate].
      apply (tick_of_running (S j)); [apply IHr; lia | lia].
Qed.

End RunFacts.

(** ** Values over the states reachable with valid parameters *)

Section NumericFacts.

Import Lab Invariant.
Local Open Scope list_scope.

Variable rand : nat -> R.
Hypothesis rand_uniform : uniform rand.

Lemma initial_numeric (m : ModelType) : numeric (initial m).
Proof.
  split; cbn; try tauto.
  split; cbn; [unfold valid_epochs; lia | right; left; reflexivity].
Qed.

Lemma numeric_same (s s' : State) :
  numeric s -> params s' = params s -> timers s' = timers s ->
  emitted s' = emitted s -> numeric s'.
Proof.
  intros [H1 H2 H3] Hp Ht He. split; rewrite ?Hp, ?Ht, ?He; auto.
Qed.

Lemma trainStep_numeric (r : Run) (s : State) :
  good_run r -> numeric s -> numeric (trainStep rand r s).
Proof.
  intros Hg [H1 H2 H3]. unfold trainStep.
  assert (Hx : from_tick
            {| epoch := currentEpoch r + 1;
               loss := Num.toFixed3 (tick_loss r (rand (draws s)) (rand (S (draws s))));
               accuracy := Num.toFixed3
                 (1 - tick_loss r (rand (draws s)) (rand (S (draws s)))) |}).
  { exists r, (rand (draws s)), (rand (S (draws s))).
    split; [exact Hg|].
    repeat split; try reflexivity; apply rand_uniform. }
  destruct (Z.ltb_spec (currentEpoch r + 1) (totalEpochs r)) as [Hlt | Hge];
    split; cbn; auto.
  - intros t Hin. apply in_app_or in Hin. destruct Hin as [Hin | [<- | []]]; auto.
    destruct Hg as (Ha & Hb & Hc & Hd & He). cbn.
    repeat split; auto; try apply Ha; cbn; lia.
  - intros m Hin. apply in_app_or in Hin. destruct Hin as [Hin | [<- | []]]; auto.
  - intros m Hin. apply in_app_or in Hin. destruct Hin as [Hin | [<- | []]]; auto.
Qed.

Lemma startTraining_numeric (s : State) : numeric s -> numeric (startTraining rand s).
Proof.
  intros Hs. unfold startTraining. apply trainStep_numeric.
  - destruct (params_valid s Hs) as [He Hl].
    repeat split; cbn; auto; try apply He; try lia.
    + exists (rand (draws s)). split; [apply rand_uniform | reflexivity].
    + unfold valid_epochs in He. lia.
  - apply (numeric_same s); auto.
Qed.

Lemma fire_numeric (id : nat) (s : State) : numeric s -> numeric (fire rand id s).
Proof.
  intros Hs. unfold fire, find_timer.
  destruct (find (fun t => Nat.eqb (timer_id t) id) (timers s)) as [t |] eqn:Hf;
    [| exact Hs].
  apply find_some in Hf. destruct Hf as [Hin _].
  apply trainStep_numeric; [now apply (runs_good s Hs)|].
  destruct Hs as [H1 H2 H3]. split; cbn; auto.
  intros t' Hin'. apply filter_In in Hin'. now apply H2.
Qed.

Lemma handleParamChange_numeric (np : option Z * option R) (s : State) :
  numeric s -> valid_params (merge_params (params s) np) ->
  numeric (handleParamChange np s).
Proof.
  intros [H1 H2 H3] Hv. unfold handleParamChange. cbn.
  destruct (Status_eqb (status s) completed); split; cbn; auto.
Qed.

Lemma resetLab_numeric (s : State) : numeric s -> numeric (resetLab s).
Proof.
  intros [H1 H2 H3]. unfold resetLab. cbn.
  destruct (trainingRef s) as [id |]; [destruct (Nat.eqb id 0)|];
    split; cbn; auto.
  intros t Hin. apply filter_In in Hin. now apply H2.
Qed.

Lemma step_numeric (s : State) (ev : Event) :
  valid_event ev -> numeric s -> numeric (step rand s ev).
Proof.
  intros Hv Hs. unfold step.
  destruct (disabled ev s); [exact Hs|].
  destruct ev; cbn [handle valid_event] in *.
  - apply handleParamChange_numeric; [assumption|].
    split; cbn; [assumption | apply (params_valid s Hs)].
  - apply handleParamChange_numeric; [assumption|].
    split; cbn; [apply (params_valid s Hs) | assumption].
  - now apply startTraining_numeric.
  - unfold handleGenerate. destruct (blank testInput); [assumption|].
    apply (numeric_same s); auto.
  - unfold generation_settles.
    destruct (inflight s) as [[result | reason] |]; try assumption;
      apply (numeric_same s); auto.
  - now apply fire_numeric.
  - unfold receive_modelType.
    destruct (ModelType_eqb m (modelType s)); [assumption|].
    apply resetLab_numeric. apply (numeric_same s); auto.
Qed.

Lemma run_numeric (evs : list Event) :
  Forall valid_event evs -> forall s, numeric s -> numeric (run rand evs s).
Proof.
  unfold run. induction 1 as [| ev evs Hev Hevs IH]; intros s Hs; cbn [fold_left].
  - exact Hs.
  - apply IH. now apply step_numeric.
Qed.

End NumericFacts.

(** ** The emitted samples *)

Section SampleClaims.

Import Lab Invariant.
Local Open Scope list_scope.

Lemma reachable_numeric (rand : nat -> R) (m0 : ModelType) (evs : list Event) :
  uniform rand -> Forall valid_event evs -> numeric (run rand evs (initial m0)).
Proof.
  intros Hu Hv. apply run_numeric; [assumption | assumption | apply initial_numeric].
Qed.

(** C1. In every state reachable with a random source in [[0, 1)] and the
    values the controls offer, each emitted sample has its loss and its
    accuracy in [[0, 1]], for every architecture, and its recorded loss is
    the rounding of the value obtained by adding the recurrent instability
    term before the clamp. *)
Theorem samples_in_unit_interval (rand : nat -> R) (m0 : ModelType)
    (evs : list Event) (m : TrainingMetric)
    (Hu : uniform rand) (Hv : Forall valid_event evs)
    (Hin : In m (emitted (run rand evs (initial m0)))) :
  0 <= loss m <= 1 /\ 0 <= accuracy m <= 1
  /\ exists r u1 u2,
       good_run r /\ 0 <= u1 < 1 /\ 0 <= u2 < 1
       /\ epoch m = (currentEpoch r + 1)%Z
       /\ loss m = Num.toFixed3 (Spec.tick_loss r u1 u2).
Proof.
  pose proof (reachable_numeric rand m0 evs Hu Hv) as Hn.
  destruct (samples_from_ticks _ Hn m Hin)
    as (r & u1 & u2 & Hg & Hu1 & Hu2 & He & Hl & Ha).
  destruct (tick_loss_valid r u1 u2 Hg Hu1 Hu2) as [Hc Hspec].
  rewrite Hl, Ha. split; [| split].
  - apply toFixed3_unit. lra.
  - apply toFixed3_unit. lra.
  - exists r, u1, u2. rewrite <- Hspec. auto.
Qed.

Lemma samples_in_unit_interval_witness :
  0 <= loss Demo.first_sample <= 1 /\ 0 <= accuracy Demo.first_sample <= 1.
Proof.
  destruct (samples_in_unit_interval Demo.zeros fnn [StartClick] Demo.first_sample)
    as (Hl & Ha & _).
  - intros k. unfold Demo.zeros. lra.
  - repeat constructor.
  - left. reflexivity.
  - split; assumption.
Defined.

End SampleClaims.

(** ** The concrete run *)

Section DemoFacts.

Import Lab Trace.
Local Open Scope list_scope.

Lemma exp_minus_5_2_bounds : 0 < exp (- 2.5) <= 0.2.
Proof.
  split; [apply exp_pos|].
  assert (Hinv : exp (- 2.5) = / exp 2.5)
    by (rewrite <- exp_Ropp; f_equal; lra).
  rewrite Hinv.
  assert (H1 : 2.25 <= exp 1.25) by (pose proof (exp_ineq1_le 1.25); lra).
  assert (H2 : exp 2.5 = exp 1.25 * exp 1.25).
  { rewrite <- exp_plus. f_equal. lra. }
  assert (H3 : 5 <= exp 2.5) by (rewrite H2; nra).
  replace 0.2 with (/ 5) by lra.
  apply Rinv_le_contravar; lra.
Qed.

Lemma tenth_draw_range : 0 <= Demo.tenth_draw < 1.
Proof. unfold Demo.tenth_draw. pose proof exp_minus_5_2_bounds. lra. Qed.

Lemma demo_rand_uniform : uniform Demo.rand.
Proof.
  intros k. unfold Demo.rand. destruct (Nat.eqb k 10).
  - apply tenth_draw_range.
  - lra.
Qed.

Lemma demo_setup_valid : Forall valid_event Demo.setup.
Proof.
  unfold Demo.setup.
  constructor; [left; reflexivity|].
  constructor; [cbn; unfold valid_epochs; lia|].
  constructor.
Qed.

(** The unrounded loss of the tenth tick. *)
Lemma demo_tenth_loss : loss_at Demo.rand Demo.configured 9 = 0.3125.
Proof.
  unfold loss_at.
  change (draws_before Demo.rand Demo.configured 9) with 10%nat.
  change (Demo.rand 10) with Demo.tenth_draw.
  unfold tick_loss.
  change (unstable (closure Demo.rand Demo.configured 9)) with false.
  change (progressRatio (closure Demo.rand Demo.configured 9)) with (IZR 10 / IZR 10).
  change (lrFactor (closure Demo.rand Demo.configured 9)) with (lrFactor_of 0.1).
  change (targetLoss (closure Demo.rand Demo.configured 9)) with (targetLoss_of 0.1 0).
  change (learningRate (run_params (closure Demo.rand Demo.configured 9))) with 0.1.
  unfold lrFactor_of, targetLoss_of.
  destruct (Req_dec_T 0.1 0.01); [lra|].
  destruct (Rlt_dec 0.05 0.1); [| lra].
  replace (- (IZR 10 / IZR 10) * 5 * 0.5) with (- 2.5) by lra.
  unfold Demo.tenth_draw.
  pose proof exp_minus_5_2_bounds as Hb.
  unfold Rmax, Rmin. repeat (destruct (Rle_dec _ _)); lra.
Qed.

Lemma toFixed3_0_3125 : Num.toFixed3 0.3125 = 0.313.
Proof.
  rewrite toFixed3_nonneg by lra. unfold Num.nearest_milli.
  rewrite (Zfloor_eq 313) by lra. lra.
Qed.

Lemma toFixed3_0_6875 : Num.toFixed3 (1 - 0.3125) = 0.688.
Proof.
  rewrite toFixed3_nonneg by lra. unfold Num.nearest_milli.
  rewrite (Zfloor_eq 688) by lra. lra.
Qed.

Lemma toFixed3_0_687 : Num.toFixed3 (1 - 0.313) = 0.687.
Proof.
  rewrite toFixed3_nonneg by lra. unfold Num.nearest_milli.
  rewrite (Zfloor_eq 687) by lra. lra.
Qed.

Lemma demo_tenth_sample : sample_at Demo.rand Demo.configured 9 = Demo.tenth_sample.
Proof.
  unfold sample_at. rewrite demo_tenth_loss, toFixed3_0_3125, toFixed3_0_6875.
  reflexivity.
Qed.

Lemma demo_finished : finished Demo.rand Demo.configured 10 Demo.final.
Proof.
  apply (after_ticks_trace Demo.rand Demo.configured).
  - discriminate.
  - reflexivity.
  - lia.
  - left. reflexivity.
Qed.

Lemma demo_final_fields :
  status Demo.final = completed
  /\ finalLoss Demo.final = 0.3125
  /\ In Demo.tenth_sample (emitted Demo.final).
Proof.
  destruct demo_finished as (He & _ & _ & Hst & Hf & _).
  split; [exact Hst|]. split.
  - rewrite Hf. exact demo_tenth_loss.
  - rewrite He. apply in_or_app. right.
    rewrite (samples_succ Demo.rand Demo.configured 9).
    apply in_or_app. right. left. exact demo_tenth_sample.
Qed.

End DemoFacts.

(** ** Runs, history, reset and parameter changes *)

Section LabClaims.

Import Lab Trace Invariant.
Local Open Scope list_scope.

Lemma reachable_structural (rand : nat -> R) (m0 : ModelType) (evs : list Event) :
  structural (run rand evs (initial m0)).
Proof. apply run_structural, initial_structural. Qed.

(** C5 as stated fails: in the run with rate 0.1 and ten epochs whose tenth
    tick has the unrounded loss 0.3125, the tenth sample records loss 0.313
    and accuracy 0.688, while [round(1 - 0.313, 3)] is 0.687. *)
Lemma accuracy_of_recorded_loss_counterexample :
  uniform Demo.rand /\ Forall valid_event Demo.setup
  /\ In Demo.tenth_sample (emitted Demo.final)
  /\ accuracy Demo.tenth_sample <> Num.toFixed3 (1 - loss Demo.tenth_sample).
Proof.
  split; [exact demo_rand_uniform|].
  split; [exact demo_setup_valid|].
  split; [apply demo_final_fields|].
  cbn [accuracy loss Demo.tenth_sample]. rewrite toFixed3_0_687. lra.
Qed.

Lemma closure_good (rand : nat -> R) (s0 : State) (i : nat) :
  uniform rand -> valid_params (params s0) ->
  (Z.of_nat i < epochs (params s0))%Z -> good_run (closure rand s0 i).
Proof.
  intros Hu [[He1 He2] Hlr] Hi.
  repeat split; cbn; auto; try lia.
  exists (rand (draws s0)). split; [apply Hu | reflexivity].
Qed.

(** C5, amended. In a run started in a reachable state, with a random
    source in [[0, 1)] and the values the controls offer, let [c] be the
    unrounded loss of tick [i + 1], the value the last tick also stores as
    [finalLoss]. The sample that tick emits records [round(c, 3)] as loss;
    its accuracy is computed from [c], not from the recorded loss: it is
    [round(1 - c, 3)] whenever [c] is at least one half, where the
    subtraction [1 - c] is exact in floating point as well. Loss and accuracy
    are whole thousandths between 0 and 1, and in thousandths they add up to
    1000 give or take one: the accuracy is within one thousandth of
    [1 - loss], not always equal to it. *)
Theorem accuracy_rounds_unrounded_loss (rand : nat -> R) (m0 : ModelType)
    (evs : list Event) (k i : nat)
    (Hu : uniform rand) (Hv : Forall valid_event evs)
    (Hs : status (run rand evs (initial m0)) <> training)
    (Hk : (k <= Z.to_nat (epochs (params (run rand evs (initial m0)))))%nat)
    (Hi : (i < k)%nat) :
  let s0 := run rand evs (initial m0) in
  let s := after_ticks rand s0 k in
  let c := loss_at rand s0 i in
  exists (m : TrainingMetric) (n1 n2 : Z),
    nth_error (emitted s) (List.length (emitted s0) + i) = Some m
    /\ epoch m = (Z.of_nat i + 1)%Z
    /\ 0 <= c <= 1
    /\ loss m = Num.toFixed3 c
    /\ (/ 2 <= c -> accuracy m = Num.toFixed3 (1 - c))
    /\ loss m = IZR n1 / 1000 /\ accuracy m = IZR n2 / 1000
    /\ (0 <= n1 <= 1000)%Z /\ (0 <= n2 <= 1000)%Z
    /\ (999 <= n1 + n2 <= 1001)%Z
    /\ (k = Z.to_nat (epochs (params s0)) -> S i = k ->
        status s = completed /\ finalLoss s = c).
Proof.
  intros s0 s c. subst s c.
  pose proof (reachable_structural rand m0 evs) as Hst. fold s0 in Hst.
  pose proof (reachable_numeric rand m0 evs Hu Hv) as Hn. fold s0 in Hn.
  fold s0 in Hs, Hk.
  assert (Ht : timers s0 = []) by (apply (no_timer_unless_training s0); assumption).
  pose proof (params_valid s0 Hn) as Hp.
  assert (He : (10 <= epochs (params s0) <= 100)%Z) by apply Hp.
  set (n := Z.to_nat (epochs (params s0))) in *.
  assert (Hem : emitted (after_ticks rand s0 k) = emitted s0 ++ samples rand s0 k
                /\ (k = n -> status (after_ticks rand s0 k) = completed
                             /\ finalLoss (after_ticks rand s0 k)
                                = loss_at rand s0 (k - 1))).
  { destruct (after_ticks_trace rand s0 Hs Ht k) as [Hrun Hfin]; [lia|].
    destruct (Nat.eq_dec k n) as [Heq | Hne].
    - destruct Hfin as (E & _ & _ & C & F & _); [left; lia|].
      split; [exact E | intros _; split; [exact C | exact F]].
    - destruct Hrun as (E & _); [lia|].
      split; [exact E | intros; contradiction]. }
  destruct Hem as [Hem Hfl].
  assert (Hg : good_run (closure rand s0 i)) by (apply closure_good; auto; lia).
  destruct (tick_loss_valid _ _ _ Hg (Hu (draws_before rand s0 i))
              (Hu (S (draws_before rand s0 i)))) as [Hc _].
  fold (loss_at rand s0 i) in Hc.
  destruct (rounding_pair _ Hc) as (Hb1 & Hb2 & Hsum). cbv zeta in Hb1, Hb2, Hsum.
  exists (sample_at rand s0 i), (Num.nearest_milli (loss_at rand s0 i)),
         (Num.nearest_milli (1 - loss_at rand s0 i)).
  split.
  { rewrite Hem, nth_error_app2 by lia.
    replace (List.length (emitted s0) + i - List.length (emitted s0))%nat with i by lia.
    now apply samples_nth. }
  split; [reflexivity|]. split; [exact Hc|]. split; [reflexivity|].
  split; [intros _; reflexivity|].
  split; [apply toFixed3_nonneg; lra|].
  split; [apply toFixed3_nonneg; lra|].
  split; [exact Hb1|]. split; [exact Hb2|]. split; [lia|].
  intros Hkn HSi. destruct (Hfl Hkn) as [C F].
  split; [exact C|]. rewrite F. f_equal. lia.
Qed.

Lemma accuracy_rounds_unrounded_loss_witness :
  let s0 := run Demo.zeros [ChangeEpochs 10%Z] (initial lstm) in
  let s := after_ticks Demo.zeros s0 10 in
  exists m : TrainingMetric,
    nth_error (emitted s) 9 = Some m /\ epoch m = 10%Z
    /\ loss m = Num.toFixed3 (finalLoss s).
Proof.
  intros s0 s.
  destruct (accuracy_rounds_unrounded_loss Demo.zeros lstm [ChangeEpochs 10%Z] 10 9)
    as (m & n1 & n2 & Hn & He & _ & Hl & _ & _ & _ & _ & _ & _ & Hf).
  - intros k. unfold Demo.zeros. lra.
  - constructor; [cbn; unfold valid_epochs; lia | constructor].
  - discriminate.
  - cbn. lia.
  - lia.
  - exists m. split; [exact Hn|]. split; [exact He|].
    destruct Hf as [_ Hf]; [reflexivity | reflexivity |].
    fold s0 in Hf. fold s in Hf. rewrite Hf. exact Hl.
Defined.

(** C2. A run started with valid parameters in a reachable state whose
    start button is enabled emits, tick after tick, the samples with epochs
    1, 2, ...; the status stays [training] until the tick numbered
    [epochs] has emitted its sample, and that tick sets the status to
    [completed] and [finalLoss] to its own loss; nothing is pending then,
    so no further sample follows. *)
Theorem run_emits_every_epoch (rand : nat -> R) (m0 : ModelType)
    (evs : list Event) (k : nat)
    (Hs : status (run rand evs (initial m0)) <> training)
    (Hp : valid_params (params (run rand evs (initial m0))))
    (Hk : (1 <= k <= Z.to_nat (epochs (params (run rand evs (initial m0)))))%nat) :
  let s0 := run rand evs (initial m0) in
  let n := Z.to_nat (epochs (params s0)) in
  let s := after_ticks rand s0 k in
  emitted s = emitted s0 ++ samples rand s0 k
  /\ map epoch (samples rand s0 k) = map Z.of_nat (seq 1 k)
  /\ ((k < n)%nat -> status s = training /\ finalLoss s = finalLoss s0)
  /\ (k = n ->
      status s = completed
      /\ finalLoss s = loss_at rand s0 (n - 1)
      /\ loss (sample_at rand s0 (n - 1)) = Num.toFixed3 (finalLoss s)
      /\ List.length (samples rand s0 k) = n
      /\ timers s = [] /\ tick rand s = s).
Proof.
  intros s0 n s. subst s.
  assert (Ht : timers s0 = []).
  { apply (no_timer_unless_training s0); [apply reachable_structural | exact Hs]. }
  destruct Hp as [[He1 He2] _]. fold s0 in He1, He2, Hk. fold n in Hk.
  assert (Hn : Z.of_nat n = epochs (params s0)) by (unfold n; lia).
  destruct (after_ticks_trace rand s0 Hs Ht k) as [Hrun Hfin]; [lia|].
  assert (Hepochs : map epoch (samples rand s0 k) = map Z.of_nat (seq 1 k)).
  { rewrite samples_epochs, <- seq_shift, map_map.
    apply map_ext. intros i. lia. }
  destruct (Nat.eq_dec k n) as [Heq | Hne].
  - destruct Hfin as (He & Hm & Hd & Hst & Hf & Htm); [left; lia|].
    split; [exact He|]. split; [exact Hepochs|].
    split; [lia|]. intros _. subst k.
    repeat split; auto.
    + cbn [loss sample_at]. now rewrite Hf.
    + apply samples_length.
    + unfold tick. now rewrite Htm.
  - destruct Hrun as (He & Hm & Hd & Hst & Hf & Htm); [lia|].
    split; [exact He|]. split; [exact Hepochs|].
    split; [auto | intros; lia].
Qed.

Lemma run_emits_every_epoch_witness :
  let s0 := run Demo.zeros [ChangeEpochs 10%Z] (initial lstm) in
  let s := after_ticks Demo.zeros s0 10 in
  map epoch (samples Demo.zeros s0 10) = [1; 2; 3; 4; 5; 6; 7; 8; 9; 10]%Z
  /\ status s = completed
  /\ loss (sample_at Demo.zeros s0 9) = Num.toFixed3 (finalLoss s).
Proof.
  destruct (run_emits_every_epoch Demo.zeros lstm [ChangeEpochs 10%Z] 10)
    as (_ & He & _ & Hf).
  - discriminate.
  - split; cbn; [unfold valid_epochs; lia | right; left; reflexivity].
  - cbn. lia.
  - destruct (Hf eq_refl) as (Hst & _ & Hl & _).
    split; [exact He|]. split; [exact Hst | exact Hl].
Defined.

(** C8. In every reachable state, during a run or outside of one, the
    history holds at most 50 samples, they are the most recently emitted
    ones, and their epochs ascend one by one; the updater appends the new
    sample and, when 50 are held already, drops the first, oldest one; after
    [k] ticks of a run the history is the last [min k 50] samples of that
    run. *)
Theorem history_keeps_latest_fifty (rand : nat -> R) (m0 : ModelType)
    (anyEvs evs : list Event) (k : nat) (x : TrainingMetric)
    (Hs : status (run rand evs (initial m0)) <> training)
    (Hk : (1 <= Z.of_nat k <= epochs (params (run rand evs (initial m0))))%Z) :
  let s1 := run rand anyEvs (initial m0) in
  let s0 := run rand evs (initial m0) in
  let s := after_ticks rand s0 k in
  (List.length (metrics s1) <= 50)%nat
  /\ (exists older, emitted s1 = older ++ metrics s1)
  /\ (exists e, ascending_from e (metrics s1))
  /\ push_metric x (metrics s1)
     = (if Nat.eqb (List.length (metrics s1)) 50 then tl (metrics s1) else metrics s1)
       ++ [x]
  /\ metrics s = skipn (k - 50) (samples rand s0 k)
  /\ List.length (metrics s) = Nat.min k 50.
Proof.
  intros s1 s0 s. subst s.
  pose proof (reachable_structural rand m0 anyEvs) as Hst1. fold s1 in Hst1.
  pose proof (reachable_structural rand m0 evs) as Hst. fold s0 in Hst.
  assert (Ht : timers s0 = []) by (apply (no_timer_unless_training s0); assumption).
  split; [apply (history_capped s1 Hst1)|].
  split; [apply (history_is_recent s1 Hst1)|].
  split.
  { destruct (history_in_order s1 Hst1) as (e & He & _). now exists e. }
  split; [apply push_metric_evicts_oldest, (history_capped s1 Hst1)|].
  assert (Hm : metrics (after_ticks rand s0 k) = skipn (k - 50) (samples rand s0 k)).
  { destruct (after_ticks_trace rand s0 Hs Ht k) as [Hrun Hfin]; [lia|].
    destruct (Z.eq_dec (Z.of_nat k) (epochs (params s0))) as [Heq | Hne].
    - destruct Hfin as (_ & Hm & _); [now left | exact Hm].
    - destruct Hrun as (_ & Hm & _); [fold s0 in Hk; lia | exact Hm]. }
  split; [exact Hm|].
  rewrite Hm, length_skipn, samples_length. lia.
Qed.

Lemma history_keeps_latest_fifty_witness :
  let s1 := run Demo.zeros [StartClick; TimerFires 1] (initial rnn) in
  let s0 := run Demo.zeros [ChangeEpochs 100%Z] (initial rnn) in
  let s := after_ticks Demo.zeros s0 100 in
  (List.length (metrics s1) <= 50)%nat
  /\ metrics s = skipn 50 (samples Demo.zeros s0 100)
  /\ List.length (metrics s) = 50%nat.
Proof.
  destruct (history_keeps_latest_fifty Demo.zeros rnn [StartClick; TimerFires 1]
              [ChangeEpochs 100%Z] 100 Demo.first_sample)
    as (Hc & _ & _ & _ & Hm & Hl).
  - discriminate.
  - cbn. lia.
  - split; [exact Hc|]. split; [exact Hm | exact Hl].
Defined.

End LabClaims.

Section ObservationFacts.

Import Lab Observation.
Local Open Scope list_scope.

Variable rand : nat -> R.

(** Name the hooks of two states that agree but for [finalLoss]. *)
Ltac same_hooks a b Hf :=
  destruct a as [mt pa st me pr fa ig tr ref tm nid dr inf em];
  destruct b as [mt' pa' st' me' pr' fb ig' tr' ref' tm' nid' dr' inf' em'];
  unfold forget_finalLoss, setFinalLoss in Hf; cbn in Hf;
  inversion Hf; subst mt' pa' st' me' pr' ig' tr' ref' tm' nid' dr' inf' em'.

Lemma alike_status (a b : State) : alike a b -> status a = status b.
Proof. intros [Hf _]. apply (f_equal status) in Hf. exact Hf. Qed.

Lemma alike_overwritten (v : R) (s : State) :
  status s <> completed -> alike s (setFinalLoss v s).
Proof. intros Hn. split; [reflexivity | intros H; contradiction]. Qed.

Lemma alike_label (a b : State) : alike a b -> finalLoss_label a = finalLoss_label b.
Proof.
  intros H. pose proof (alike_status a b H) as Hst. destruct H as [_ Hc].
  unfold finalLoss_label. rewrite <- Hst.
  destruct (Status_eqb_spec (status a) completed) as [Hcomp | _]; [| reflexivity].
  now rewrite (Hc Hcomp).
Qed.

(** A tick does not read [finalLoss]; the last one overwrites it. *)
Lemma alike_trainStep (r : Run) (a b : State) :
  alike a b -> alike (trainStep rand r a) (trainStep rand r b).
Proof.
  intros [Hf Hc]. same_hooks a b Hf. cbn in Hc.
  unfold trainStep, alike, forget_finalLoss.
  destruct (Z.ltb (currentEpoch r + 1) (totalEpochs r)); split; try reflexivity.
  exact Hc.
Qed.

(** No handler tells two such states apart. *)
Lemma alike_step (a b : State) (ev : Event) :
  alike a b -> alike (step rand a ev) (step rand b ev).
Proof.
  intros Hab. pose proof Hab as [Hf Hc].
  assert (Hd : disabled ev a = disabled ev b).
  { destruct ev; cbn [disabled];
      rewrite ?(alike_status a b Hab);
      rewrite ?(f_equal isGenerating Hf : isGenerating a = isGenerating b);
      reflexivity. }
  unfold step. rewrite <- Hd. destruct (disabled ev a) eqn:Hda; [exact Hab|].
  destruct ev; cbn [handle disabled] in *.
  - same_hooks a b Hf. cbn in Hc.
    unfold handleParamChange, alike, forget_finalLoss. cbn.
    destruct (Status_eqb _ completed) eqn:E; split; cbn; try reflexivity;
      try discriminate; exact Hc.
  - same_hooks a b Hf. cbn in Hc.
    unfold handleParamChange, alike, forget_finalLoss. cbn.
    destruct (Status_eqb _ completed) eqn:E; split; cbn; try reflexivity;
      try discriminate; exact Hc.
  - same_hooks a b Hf.
    unfold startTraining. apply alike_trainStep.
    split; [reflexivity | discriminate].
  - apply orb_false_elim in Hda. destruct Hda as [_ Hst].
    apply negb_false_iff in Hst.
    destruct (Status_eqb_spec (status a) completed) as [Hcomp | ]; [| discriminate].
    specialize (Hc Hcomp).
    same_hooks a b Hf. cbn in Hc. subst. apply (conj eq_refl). auto.
  - same_hooks a b Hf. cbn in Hc.
    unfold generation_settles, alike, forget_finalLoss. cbn.
    destruct inf as [[result | reason] |]; split; try reflexivity; exact Hc.
  - assert (Ht : timers a = timers b) by exact (f_equal timers Hf).
    unfold fire, find_timer. rewrite <- Ht.
    destruct (find _ (timers a)) as [t |]; [| exact Hab].
    apply alike_trainStep.
    same_hooks a b Hf. cbn in Hc. split; [reflexivity | exact Hc].
  - assert (Hm : modelType a = modelType b) by exact (f_equal modelType Hf).
    unfold receive_modelType. rewrite <- Hm.
    destruct (ModelType_eqb m (modelType a)); [exact Hab|].
    same_hooks a b Hf.
    unfold resetLab, alike, forget_finalLoss. cbn.
    destruct ref as [id |]; [destruct (Nat.eqb id 0)|]; split;
      reflexivity.
Qed.

Lemma alike_run (evs : list Event) (a b : State) :
  alike a b -> alike (run rand evs a) (run rand evs b).
Proof.
  unfold run. revert a b.
  induction evs as [| ev evs IH]; intros a b Hab; cbn [fold_left]; [exact Hab|].
  apply IH. now apply alike_step.
Qed.

Lemma start_clicked_dec (evs : list Event) :
  {In StartClick evs} + {~ In StartClick evs}.
Proof.
  induction evs as [| ev evs [IH | IH]].
  - right. intros [].
  - left. now right.
  - destruct ev; try (right; intros [H | H]; [discriminate | contradiction]).
    left. now left.
Qed.

End ObservationFacts.

Section GateClaims.

Import Lab Trace Invariant.
Local Open Scope list_scope.

Variable rand : nat -> R.

Lemma fire_without_timers (id : nat) (s : State) : timers s = [] -> fire rand id s = s.
Proof. intros Ht. unfold fire, find_timer. now rewrite Ht. Qed.

Lemma timers_fire_in_vain (ids : list nat) (s : State) :
  timers s = [] -> run rand (map TimerFires ids) s = s.
Proof.
  intros Ht. unfold run. induction ids as [| id ids IH]; cbn [map fold_left].
  - reflexivity.
  - unfold step at 2. cbn [disabled handle].
    now rewrite fire_without_timers.
Qed.

(** A parameter change on a completed run. *)
Lemma handleParamChange_completed (np : option Z * option R) (s : State) :
  status s = completed ->
  let s' := handleParamChange np s in
  status s' = idle /\ testResult s' = None /\ finalLoss s' = finalLoss s
  /\ timers s' = timers s.
Proof.
  intros Hc. unfold handleParamChange. cbn. rewrite Hc. cbn. auto.
Qed.

Lemma param_event_completed (ev : Event) (np : option Z * option R) (s : State) :
  status s = completed ->
  disabled ev s = Status_eqb (status s) training ->
  handle rand ev s = handleParamChange np s ->
  let s' := step rand s ev in
  status s' = idle /\ testResult s' = None /\ finalLoss s' = finalLoss s
  /\ timers s' = timers s.
Proof.
  intros Hc Hd Hh. unfold step. rewrite Hd, Hc. cbn [Status_eqb]. rewrite Hh.
  now apply handleParamChange_completed.
Qed.

(** Idle and without pending timer: only the start button leaves this. *)
Lemma idle_until_start (evs : list Event) :
  ~ In StartClick evs ->
  forall s, status s = idle -> timers s = [] ->
    status (run rand evs s) = idle /\ timers (run rand evs s) = [].
Proof.
  unfold run. induction evs as [| ev evs IH]; intros Hno s Hst Ht; cbn [fold_left].
  - auto.
  - assert (Hrest : ~ In StartClick evs) by (intros H; apply Hno; now right).
    assert (Hev : ev <> StartClick) by (intros H; apply Hno; now left).
    assert (Hstep : status (step rand s ev) = idle /\ timers (step rand s ev) = []).
    { unfold step. destruct (disabled ev s) eqn:Hd; [auto|].
      destruct ev; cbn [handle disabled] in *.
      - unfold handleParamChange. cbn. rewrite Hst. cbn. auto.
      - unfold handleParamChange. cbn. rewrite Hst. cbn. auto.
      - contradiction.
      - rewrite Hst in Hd. cbn in Hd. rewrite orb_true_r in Hd. discriminate.
      - unfold generation_settles.
        destruct (inflight s) as [[result | reason] |]; cbn; auto.
      - now rewrite fire_without_timers.
      - unfold receive_modelType. destruct (ModelType_eqb m (modelType s)); [auto|].
        unfold resetLab. cbn.
        destruct (trainingRef s) as [id |]; [destruct (Nat.eqb id 0)|]; cbn;
          rewrite ?Ht; auto. }
    destruct Hstep as [Hst' Ht']. now apply IH.
Qed.

(** C9. When [resetLab] runs in a reachable state whose status is
    [training], whether called as it is or through a change of the
    architecture, the status becomes [idle], the history becomes empty and
    no timer stays pending; whichever timers fire afterwards, the state, and
    with it the list of emitted samples, does not change. *)
Theorem reset_cancels_run (m0 : ModelType) (evs : list Event) (ids : list nat)
    (m : ModelType)
    (Htr : status (run rand evs (initial m0)) = training)
    (Hm : m <> modelType (run rand evs (initial m0))) :
  let s := run rand evs (initial m0) in
  (status (resetLab s) = idle /\ metrics (resetLab s) = []
   /\ timers (resetLab s) = [] /\ emitted (resetLab s) = emitted s
   /\ run rand (map TimerFires ids) (resetLab s) = resetLab s)
  /\ (let s' := step rand s (ModelTypeChanges m) in
      status s' = idle /\ metrics s' = []
      /\ timers s' = [] /\ emitted s' = emitted s
      /\ run rand (map TimerFires ids) s' = s').
Proof.
  intros s.
  pose proof (reachable_structural rand m0 evs) as Hs. fold s in Hs.
  split.
  - destruct (resetLab_fields s Hs) as (H1 & H2 & H3 & H4 & _).
    repeat split; auto. now apply timers_fire_in_vain.
  - assert (Hstep : step rand s (ModelTypeChanges m) = resetLab (with_modelType m s)).
    { unfold step. cbn [disabled handle]. unfold receive_modelType.
      destruct (ModelType_eqb_spec m (modelType s)); [contradiction | reflexivity]. }
    assert (Hs' : structural (with_modelType m s)) by (apply (structural_same s); auto).
    cbv zeta. rewrite Hstep.
    destruct (resetLab_fields _ Hs') as (H1 & H2 & H3 & H4 & _).
    repeat split; auto. now apply timers_fire_in_vain.
Qed.

(** C4. A change of the epoch count or of the learning rate in a
    reachable state whose status is [completed] sets the status to [idle]
    and clears the displayed generation result, so the generate button is
    disabled. Until the start button is clicked the status stays [idle] and
    the button disabled, and a status [completed] is only reached again
    through a new run. The final loss recorded by the finished run is out of
    use from the change on: it is read only while the status is
    [completed], and the last tick of the new run overwrites it before that
    status returns. Had [finalLoss] held any other value [v] at the change,
    every later state would be the same in all other hooks and, whenever the
    status is [completed], in [finalLoss] and its label as well. *)
Theorem param_change_invalidates_run (m0 : ModelType) (evs evs' : list Event)
    (e : Z) (lr v : R) (w : Gemini.World) (testInput : string) (ev : Event)
    (Hc : status (run rand evs (initial m0)) = completed)
    (Hev : ev = ChangeEpochs e \/ ev = ChangeLearningRate lr) :
  let s := run rand evs (initial m0) in
  let s' := step rand s ev in
  let later := run rand evs' s' in
  status s' = idle /\ testResult s' = None
  /\ disabled (GenerateClick w testInput) s' = true
  /\ (~ In StartClick evs' ->
      status later = idle /\ disabled (GenerateClick w testInput) later = true)
  /\ (status later = completed -> In StartClick evs')
  /\ Observation.alike later (run rand evs' (setFinalLoss v s'))
  /\ Observation.finalLoss_label later
     = Observation.finalLoss_label (run rand evs' (setFinalLoss v s')).
Proof.
  intros s s' later.
  pose proof (reachable_structural rand m0 evs) as Hs. fold s in Hs.
  assert (Ht : timers s = []).
  { apply (no_timer_unless_training s Hs). fold s in Hc. rewrite Hc. discriminate. }
  assert (Hstep : status s' = idle /\ testResult s' = None
                  /\ finalLoss s' = finalLoss s /\ timers s' = timers s).
  { destruct Hev as [-> | ->].
    - exact (param_event_completed (ChangeEpochs e) (Some e, None) s Hc eq_refl eq_refl).
    - exact (param_event_completed (ChangeLearningRate lr) (None, Some lr) s Hc
               eq_refl eq_refl). }
  destruct Hstep as (H1 & H2 & _ & H4). rewrite Ht in H4.
  assert (Hidle : ~ In StartClick evs' -> status later = idle).
  { intros Hno. now destruct (idle_until_start evs' Hno _ H1 H4). }
  assert (Hal : Observation.alike later (run rand evs' (setFinalLoss v s'))).
  { apply alike_run, alike_overwritten. rewrite H1. discriminate. }
  split; [exact H1|]. split; [exact H2|].
  split; [cbn [disabled]; rewrite H1; cbn; apply orb_true_r|].
  split.
  { intros Hno. specialize (Hidle Hno). split; [exact Hidle|].
    cbn [disabled]. rewrite Hidle. cbn. apply orb_true_r. }
  split.
  { intros Hcomp. destruct (start_clicked_dec evs') as [Hin | Hno]; [exact Hin|].
    rewrite (Hidle Hno) in Hcomp. discriminate. }
  split; [exact Hal | now apply alike_label].
Qed.

End GateClaims.

Section GateWitnesses.

Import Lab Trace Invariant.
Local Open Scope list_scope.

Lemma reset_cancels_run_witness :
  let s := run Demo.zeros [StartClick; TimerFires 1; TimerFires 2] (initial fnn) in
  List.length (emitted s) = 3%nat
  /\ timers (resetLab s) = []
  /\ run Demo.zeros (map TimerFires [3%nat; 3%nat; 4%nat]) (resetLab s) = resetLab s.
Proof.
  destruct (reset_cancels_run Demo.zeros fnn
              [StartClick; TimerFires 1; TimerFires 2] [3%nat; 3%nat; 4%nat] rnn)
    as ((_ & _ & Ht & _ & Hq) & _).
  - reflexivity.
  - discriminate.
  - split; [reflexivity|]. split; [exact Ht | exact Hq].
Defined.

Lemma param_change_invalidates_run_witness :
  let s := run Demo.zeros Demo.ten_epochs (initial fnn) in
  let s' := step Demo.zeros s (ChangeEpochs 20) in
  let evs' := [TimerFires 9; ChangeLearningRate 0.1] in
  status s = completed /\ status s' = idle
  /\ disabled (GenerateClick Failure.no_key_world "x") (run Demo.zeros evs' s') = true
  /\ Observation.alike (run Demo.zeros evs' s')
       (run Demo.zeros evs' (setFinalLoss 0.5 s')).
Proof.
  destruct (param_change_invalidates_run Demo.zeros fnn Demo.ten_epochs
              [TimerFires 9; ChangeLearningRate 0.1] 20 0.001 0.5
              Failure.no_key_world "x" (ChangeEpochs 20))
    as (H1 & _ & _ & H4 & _ & H6 & _).
  - reflexivity.
  - left. reflexivity.
  - split; [reflexivity|]. split; [exact H1|]. split; [| exact H6].
    apply H4. intros [H | [H | []]]; discriminate.
Defined.

End GateWitnesses.

(** * Further properties *)

(** ** The couplet service, beyond the failure contract *)

Section ServiceExtras.

Import Gemini Failure.

Lemma quality_of_loss_range (l : R) : (0 <= quality_of_loss l <= 100)%Z.
Proof. unfold quality_of_loss. lia. Qed.

(** X1. Every result with which the promise of [generateCouplet] is
    fulfilled, be it built by the [try] block or by the [catch] block,
    echoes the submitted upper line and carries a quality score that is a
    whole number between 0 and 100. *)
Theorem result_echoes_input_with_bounded_score (w : World) (upper0 : string)
    (m : ModelType) (ctx : option TrainingContext) (r : CoupletResult)
    (Hr : generateCouplet w upper0 m ctx = Fulfilled r) :
  upper r = upper0
  /\ exists q, qualityScore r = Some q /\ (0 <= q <= 100)%Z.
Proof.
  unfold generateCouplet in Hr.
  destruct (try_body w upper0 m ctx) as [e | r'] eqn:E.
  - inversion Hr; subst r. cbn. split; [reflexivity|].
    exists 0%Z. split; [reflexivity | lia].
  - inversion Hr; subst r'.
    destruct (try_body_success _ _ _ _ _ E) as [Hu Hq].
    split; [exact Hu|].
    exists (quality_of_loss (context_loss ctx)).
    split; [exact Hq | apply quality_of_loss_range].
Qed.

Lemma result_echoes_input_with_bounded_score_witness :
  exists r, generateCouplet no_key_world "x" rnn None = Fulfilled r
    /\ upper r = "x"
    /\ exists q, qualityScore r = Some q /\ (0 <= q <= 100)%Z.
Proof.
  eexists. split; [reflexivity|].
  apply (result_echoes_input_with_bounded_score no_key_world "x" rnn None).
  reflexivity.
Defined.

Lemma opt_prop_total (k : string) (v : JsVal) : exists v', opt (prop k) v = inr v'.
Proof. destruct v; cbn; eauto. Qed.

Lemma opt_index0_total (v : JsVal) : exists v', opt index0 v = inr v'.
Proof. destruct v as [| | | | s | |]; cbn; eauto. destruct s; cbn; eauto. Qed.

(** X2. Reading the text out of the response body throws exactly when the
    body is [null] or [undefined]; on any other body, however it is shaped,
    the optional chain yields a value. *)
Theorem extract_text_throws_only_on_nullish (data : JsVal) :
  (nullish data = true -> exists e, extract_text data = inl e)
  /\ (nullish data = false -> exists text, extract_text data = inr text).
Proof.
  split; intros Hn.
  - destruct data; try discriminate; cbn; eauto.
  - unfold extract_text.
    assert (Hc : exists c, prop "candidates" data = inr c)
      by (destruct data; try discriminate; cbn; eauto).
    destruct Hc as [c ->]. cbn [bind].
    destruct (opt_index0_total c) as [c0 ->]. cbn [bind].
    destruct (opt_prop_total "content" c0) as [co ->]. cbn [bind].
    destruct (opt_prop_total "parts" co) as [ps ->]. cbn [bind].
    destruct (opt_index0_total ps) as [p0 ->]. cbn [bind].
    apply opt_prop_total.
Qed.

Lemma extract_text_throws_only_on_nullish_witness :
  (exists e, extract_text JNull = inl e)
  /\ (exists text, extract_text (JStr "plain") = inr text).
Proof.
  destruct (extract_text_throws_only_on_nullish JNull) as [H1 _].
  destruct (extract_text_throws_only_on_nullish (JStr "plain")) as [_ H2].
  split; [apply H1 | apply H2]; reflexivity.
Defined.

(** X3. When the service answers and its text parses, a parsed [null]
    gives the degraded result with score 0, and any other parsed value gives
    a result with the score of the loss whose lower line and explanation are
    the parsed fields when truthy and the texts "生成失败" and "无法解释"
    otherwise. *)
Theorem parsed_answer_outcome (w : World) (upper0 : string) (m : ModelType)
    (ctx : option TrainingContext) (resp : Response) (data text result : JsVal)
    (Hans : answered w upper0 m ctx resp) (Hok : ok resp = true)
    (Hjson : resp_json resp = inr data) (Htext : extract_text data = inr text)
    (Htruthy : truthy text = true) (Hparse : JSON_parse w text = inr result) :
  (nullish result = true ->
     exists r, generateCouplet w upper0 m ctx = Fulfilled r
       /\ lower r = JStr "调用失败" /\ qualityScore r = Some 0%Z)
  /\ (nullish result = false ->
     exists r rl re, generateCouplet w upper0 m ctx = Fulfilled r
       /\ prop "lower" result = inr rl /\ prop "explanation" result = inr re
       /\ lower r = (if truthy rl then rl else JStr "生成失败")
       /\ explanation r = (if truthy re then re else JStr "无法解释")
       /\ qualityScore r = Some (quality_of_loss (context_loss ctx))).
Proof.
  destruct Hans as (k & Hk & Hne & Hf).
  assert (Hbody : try_body w upper0 m ctx
            = (rlower <- prop "lower" result ;;
               rexplanation <- prop "explanation" result ;;
               ret {| upper := upper0;
                      lower := or_else rlower (JStr "生成失败");
                      explanation := or_else rexplanation (JStr "无法解释");
                      qualityScore := Some (quality_of_loss (context_loss ctx)) |})).
  { unfold try_body, ret. rewrite Hk, Hne. cbn [bind]. rewrite Hf. cbn [bind].
    rewrite Hok. cbn [negb bind]. rewrite Hjson. cbn [bind].
    rewrite Htext. cbn [bind]. rewrite Htruthy. cbn [negb bind].
    rewrite Hparse. reflexivity. }
  unfold generateCouplet. rewrite Hbody.
  split; intros Hn.
  - destruct result; try discriminate; cbn; eauto.
  - assert (Hl : exists rl, prop "lower" result = inr rl)
      by (destruct result; try discriminate; cbn; eauto).
    assert (He : exists re, prop "explanation" result = inr re)
      by (destruct result; try discriminate; cbn; eauto).
    destruct Hl as [rl Hl]. destruct He as [re He].
    rewrite Hl, He. cbn [bind ret].
    eexists. exists rl, re. repeat split; reflexivity.
Qed.

Lemma parsed_answer_outcome_witness :
  exists r, generateCouplet answering_world "x" fnn None = Fulfilled r
    /\ lower r = JStr "l" /\ explanation r = JStr "e"
    /\ qualityScore r = Some (quality_of_loss 0.1).
Proof.
  destruct (parsed_answer_outcome answering_world "x" fnn None
              {| ok := true; resp_status := 200; resp_text := inr "{}";
                 resp_json := inr (JObj [("candidates",
                   JArr [JObj [("content",
                     JObj [("parts", JArr [JObj [("text", JStr "{}")]])])]])]) |}
              (JObj [("candidates",
                   JArr [JObj [("content",
                     JObj [("parts", JArr [JObj [("text", JStr "{}")]])])]])])
              (JStr "{}")
              (JObj [("lower", JStr "l"); ("explanation", JStr "e")]))
    as [_ H]; try reflexivity.
  - exists "k". repeat split; reflexivity.
  - destruct (H eq_refl) as (r & rl & re & Hr & Hl & He & H1 & H2 & H3).
    exists r. split; [exact Hr|].
    inversion Hl; subst rl. inversion He; subst re.
    split; [exact H1|]. split; [exact H2 | exact H3].
Defined.

(** X4. The quality block of the prompt follows the thresholds 0.2 and
    0.4, both of which fall into the middle block: "underfitted" above
    0.4, "converged" below 0.2, "partial" from 0.2 to 0.4 inclusive; the
    status label of the header agrees with the block. *)
Theorem prompt_branch_thresholds (l : R) :
  (0.4 < l ->
     quality_block l = underfitted_block l
     /\ status_label l = "欠拟合 (High Loss, 训练不足)")
  /\ (l < 0.2 ->
     quality_block l = converged_block l
     /\ status_label l = "收敛良好 (Low Loss, 训练充分)")
  /\ (0.2 <= l <= 0.4 ->
     quality_block l = partial_block
     /\ status_label l = "部分训练 (训练一般)").
Proof.
  unfold quality_block, status_label, isUnderfitted, isConverged.
  repeat split; intros; destruct (Rlt_dec 0.4 l); destruct (Rlt_dec l 0.2);
    try lra; reflexivity.
Qed.

Lemma prompt_branch_thresholds_witness :
  quality_block 0.2 = partial_block /\ quality_block 0.4 = partial_block.
Proof.
  destruct (prompt_branch_thresholds 0.2) as (_ & _ & H2).
  destruct (prompt_branch_thresholds 0.4) as (_ & _ & H4).
  split; [apply H2 | apply H4]; lra.
Defined.

End ServiceExtras.

(** ** The stepper and the diagram *)

Section StepperExtras.

Import Stepper Visualizer.
Local Open Scope Z_scope.

(** X5. In a reachable state a click on next followed by a click on
    previous comes back to the same state unless the last step is shown,
    and previous followed by next comes back unless the first step is
    shown. *)
Theorem next_previous_round_trip (ops : list Op) :
  let s := run ops initial in
  (stepIndex s <> Z.of_nat (List.length (STEPS_DATA (activeTab s))) - 1 ->
     previous (next s) = s)
  /\ (stepIndex s <> 0 -> next (previous s) = s).
Proof.
  intros s.
  assert (H : in_bounds s) by (apply run_in_bounds, initial_in_bounds).
  unfold in_bounds, steps in H. rewrite STEPS_DATA_length in *.
  destruct s as [tab i]. cbn [stepIndex activeTab] in *.
  unfold next, previous, click, next_disabled, previous_disabled, next_onClick,
    previous_onClick, setStepIndex, steps.
  cbn [stepIndex activeTab]. rewrite !STEPS_DATA_length.
  split; intros Hne.
  - destruct (Z.eqb_spec i (Z.of_nat 4 - 1)); [contradiction|].
    cbn [stepIndex activeTab].
    destruct (Z.eqb_spec (i + 1) 0); [lia|].
    cbn [stepIndex activeTab]. f_equal. lia.
  - destruct (Z.eqb_spec i 0); [contradiction|].
    cbn [stepIndex activeTab].
    destruct (Z.eqb_spec (i - 1) (Z.of_nat 4 - 1)); [lia|].
    cbn [stepIndex activeTab]. f_equal. lia.
Qed.

Lemma next_previous_round_trip_witness :
  let s := run [SelectArchitecture lstm; Next] initial in
  previous (next s) = s /\ next (previous s) = s.
Proof.
  destruct (next_previous_round_trip [SelectArchitecture lstm; Next]) as [H1 H2].
  split; [apply H1 | apply H2]; discriminate.
Defined.

Lemma next_from (a : ModelType) (i : Z) :
  0 <= i < 4 -> next (mkApp a i) = mkApp a (Z.min (i + 1) 3).
Proof.
  intros Hi. unfold next, click, next_disabled, next_onClick, setStepIndex, steps.
  cbn [stepIndex activeTab]. rewrite STEPS_DATA_length.
  destruct (Z.eqb_spec i (Z.of_nat 4 - 1)); cbn [stepIndex activeTab]; f_equal; lia.
Qed.

Lemma nexts_from (n : nat) : forall (a : ModelType) (i : Z),
  0 <= i < 4 ->
  run (repeat Next n) (mkApp a i) = mkApp a (Z.min (i + Z.of_nat n) 3).
Proof.
  unfold run. induction n as [| n IH]; intros a i Hi; cbn [repeat fold_left].
  - f_equal. lia.
  - cbn [apply]. rewrite next_from by assumption.
    rewrite IH by lia. f_equal. lia.
Qed.

(** X6. After an architecture is selected, [n] clicks on next show step
    [min n 3] of that architecture: every step can be reached, and further
    clicks stay on the last one. *)
Theorem next_clicks_saturate (ops : list Op) (a : ModelType) (n : nat) :
  let s := run (ops ++ SelectArchitecture a :: repeat Next n) initial in
  activeTab s = a /\ stepIndex s = Z.min (Z.of_nat n) 3
  /\ currentStep s = nth_error (STEPS_DATA a) (Nat.min n 3).
Proof.
  intros s. subst s. unfold run. rewrite fold_left_app. cbn [fold_left apply].
  fold (run (repeat Next n) (handleTabChange a (fold_left (fun s o => apply o s) ops initial))).
  unfold handleTabChange. rewrite nexts_from by lia.
  cbn [activeTab stepIndex]. repeat split.
  unfold currentStep, steps. cbn [activeTab stepIndex].
  destruct (Z.ltb_spec (Z.min (0 + Z.of_nat n) 3) 0); [lia|].
  f_equal. lia.
Qed.

Lemma step_consistent_everywhere (a : ModelType) (i : nat) (d : StepInfo) :
  nth_error (STEPS_DATA a) i = Some d -> step_consistent a d = true.
Proof.
  destruct a;
    (destruct i as [| [| [| [| i]]]]; cbn [nth_error STEPS_DATA];
     intros H; [inversion H; subst d; vm_compute; reflexivity ..
               | destruct i; discriminate]).
Qed.

Lemma includes_In (id : string) (ids : list string) :
  includes id ids = true <-> In id ids.
Proof.
  unfold includes. rewrite existsb_exists. split.
  - intros (x & Hin & Heq). apply String.eqb_eq in Heq. now subst.
  - intros Hin. exists id. split; [assumption | apply String.eqb_refl].
Qed.

(** X7. In every reachable state the step on display highlights and fades
    only elements that the diagram of the active architecture draws for
    that step (for the recurrent network: in the folded or unfolded view the
    step selects), and it never both highlights and fades one element. *)
Theorem highlighted_elements_are_drawn (ops : list Op) (d : StepInfo) (id : string)
    (Hd : currentStep (run ops initial) = Some d) :
  (isHighlighted d id = true -> drawn (activeTab (run ops initial)) d id = true)
  /\ (isFaded d id = true -> drawn (activeTab (run ops initial)) d id = true)
  /\ (isHighlighted d id = true -> isFaded d id = false).
Proof.
  set (s := run ops initial) in *.
  unfold currentStep, steps in Hd.
  destruct (stepIndex s <? 0); [discriminate|].
  apply step_consistent_everywhere in Hd.
  unfold step_consistent in Hd. apply andb_prop in Hd. destruct Hd as [Hdr Hex].
  rewrite forallb_forall in Hdr, Hex.
  split; [| split].
  - intros Hh. apply Hdr, in_or_app. left. now apply includes_In.
  - intros Hf. apply Hdr, in_or_app. right. unfold isFaded in Hf.
    destruct (fadeIds d); [now apply includes_In | discriminate].
  - intros Hh. apply includes_In in Hh. specialize (Hex id Hh).
    now apply negb_true_iff in Hex.
Qed.

Lemma highlighted_elements_are_drawn_witness :
  drawn rnn {| title := "问题：梯度消失";
      desc := "当链条太长，反向传播时梯度在远处（左侧）会趋近于 0，导致网络‘忘记’开头的文字，无法做到前后呼应。";
      formula := Some "∂E/∂W ≈ 0 (Gradient Vanishing)";
      formulaDesc := Some "误差传不回去，导致前面的参数无法有效更新（即忘记了开头）";
      highlightIds := ["rnn-step-4"];
      view := Some unfolded;
      fadeIds := Some ["rnn-step-0"; "rnn-step-1"; "rnn-step-2"] |} "rnn-step-4" = true.
Proof.
  destruct (highlighted_elements_are_drawn
              [SelectArchitecture rnn; Next; Next; Next] _ "rnn-step-4" eq_refl)
    as [H _].
  apply H. reflexivity.
Defined.

End StepperExtras.

(** ** The pending tick and the request in flight *)

Section CoherenceFacts.

Import Lab Invariant Coherence.
Local Open Scope list_scope.

Variable rand : nat -> R.

Lemma generateCouplet_fulfilled (w : Gemini.World) (u : string) (m : ModelType)
    (ctx : option Gemini.TrainingContext) :
  exists r, Gemini.generateCouplet w u m ctx = Gemini.Fulfilled r.
Proof.
  unfold Gemini.generateCouplet.
  destruct (Gemini.try_body w u m ctx); eauto.
Qed.

Lemma initial_coherent (m : ModelType) : coherent (initial m).
Proof.
  split; cbn; try tauto; try lia; try discriminate.
  split; [discriminate | congruence].
Qed.

(** One tick of a run that matches the display, run without pending timer. *)
Lemma trainStep_coherent (r : Run) (s : State) :
  timers s = [] -> status s = training ->
  run_params r = params s -> totalEpochs r = epochs (params s) ->
  run_modelType r = modelType s ->
  (isGenerating s = true <-> inflight s <> None) ->
  (forall x, inflight s = Some x -> exists y, x = Gemini.Fulfilled y) ->
  coherent (trainStep rand r s).
Proof.
  intros Ht Hst Hp Hn Hm Hb Hi. unfold trainStep.
  destruct (Z.ltb_spec (currentEpoch r + 1) (totalEpochs r)); split; cbn;
    rewrite ?Ht; cbn [app List.length In]; auto; try lia; try discriminate;
    try tauto.
  intros t [<- | []]. cbn. rewrite Hm. auto.
Qed.

Lemma resetLab_keeps (s : State) :
  params (resetLab s) = params s /\ modelType (resetLab s) = modelType s
  /\ isGenerating (resetLab s) = isGenerating s /\ inflight (resetLab s) = inflight s.
Proof.
  unfold resetLab. cbn.
  destruct (trainingRef s) as [id |]; [destruct (Nat.eqb id 0)|]; cbn; auto.
Qed.

Lemma step_coherent (s : State) (ev : Event) :
  structural s -> coherent s -> coherent (step rand s ev).
Proof.
  intros Hs Hc. unfold step.
  destruct (disabled ev s) eqn:Hd; [exact Hc|].
  pose proof Hc as Hc0. destruct Hc as [C1 C2 C3 C4 C5].
  destruct ev; cbn [handle disabled] in *.
  - destruct (Status_eqb_spec (status s) training) as [| Hne]; [discriminate|].
    pose proof (no_timer_unless_training s Hs Hne) as Ht.
    unfold handleParamChange. cbn.
    destruct (Status_eqb_spec (status s) completed); split; cbn;
      rewrite ?Ht; cbn; auto; try discriminate; try tauto.
  - destruct (Status_eqb_spec (status s) training) as [| Hne]; [discriminate|].
    pose proof (no_timer_unless_training s Hs Hne) as Ht.
    unfold handleParamChange. cbn.
    destruct (Status_eqb_spec (status s) completed); split; cbn;
      rewrite ?Ht; cbn; auto; try discriminate; try tauto.
  - destruct (Status_eqb_spec (status s) training) as [| Hne]; [discriminate|].
    pose proof (no_timer_unless_training s Hs Hne) as Ht.
    unfold startTraining. apply trainStep_coherent; cbn; auto.
  - unfold handleGenerate. destruct (blank testInput); [exact Hc0|].
    destruct (generateCouplet_fulfilled w testInput (modelType s)
                (Some (Gemini.mkContext (finalLoss s) (epochs (params s)))))
      as [r Hr].
    split; cbn; auto.
    + split; [discriminate | reflexivity].
    + intros x Hx. inversion Hx; subst x. cbn in Hr. eauto.
  - unfold generation_settles.
    destruct (inflight s) as [[result | reason] |] eqn:Hi; [| | exact Hc0].
    + split; cbn; auto. split; [discriminate | congruence].
      discriminate.
    + destruct (C5 _ eq_refl) as [r Hr]. discriminate.
  - unfold fire, find_timer.
    destruct (find (fun t => Nat.eqb (timer_id t) id) (timers s)) as [t |] eqn:Hf;
      [| exact Hc0].
    apply find_some in Hf. destruct Hf as [Hin Hid].
    apply Nat.eqb_eq in Hid.
    destruct (timer_is_referenced s Hs t Hin) as [Href _].
    rewrite Hid in Href.
    destruct (C3 t Hin) as (Hp & Hn & Hm & _).
    apply trainStep_coherent; cbn; auto.
    + now apply clear_referenced.
    + destruct (status_training_dec s) as [Htr | Hn']; [assumption|].
      rewrite (no_timer_unless_training s Hs Hn') in Hin. destruct Hin.
  - unfold receive_modelType.
    destruct (ModelType_eqb m (modelType s)); [exact Hc0|].
    assert (Hs' : structural (with_modelType m s)) by (apply (structural_same s); auto).
    destruct (resetLab_fields _ Hs') as (Hst & _ & Ht & _).
    destruct (resetLab_keeps (with_modelType m s)) as (_ & _ & Hg & Hi).
    split; rewrite ?Hst, ?Ht, ?Hg, ?Hi; cbn; auto; try discriminate; try tauto.
Qed.

Lemma reachable_coherent (m0 : ModelType) (evs : list Event) :
  coherent (run rand evs (initial m0)).
Proof.
  assert (H : forall s, structural s -> coherent s ->
                structural (run rand evs s) /\ coherent (run rand evs s)).
  { unfold run. induction evs as [| ev evs' IH]; intros s Hs Hc; cbn [fold_left].
    - auto.
    - apply IH; [now apply step_structural | now apply step_coherent]. }
  apply H; [apply initial_structural | apply initial_coherent].
Qed.

End CoherenceFacts.

Section CoherenceExtras.

Import Lab Invariant Coherence.
Local Open Scope list_scope.

Variable rand : nat -> R.

(** X8. In every reachable state at most one tick is pending, one is
    pending exactly while the status is [training], and the pending tick
    was created with the parameters and the architecture on display and
    waits for that architecture's delay. *)
Theorem pending_tick_matches_display (m0 : ModelType) (evs : list Event) :
  let s := run rand evs (initial m0) in
  (List.length (timers s) <= 1)%nat
  /\ (status s = training <-> timers s <> [])
  /\ forall t, In t (timers s) ->
       run_params (timer_run t) = params s
       /\ totalEpochs (timer_run t) = epochs (params s)
       /\ run_modelType (timer_run t) = modelType s
       /\ timer_delay t = speed (modelType s).
Proof.
  intros s.
  pose proof (reachable_coherent rand m0 evs) as Hc. fold s in Hc.
  pose proof (reachable_structural rand m0 evs) as Hs. fold s in Hs.
  split; [apply (at_most_one_pending s Hc)|]. split.
  - split; [apply (pending_while_training s Hc)|].
    intros Hne. destruct (status_training_dec s) as [| Hn]; [assumption|].
    now apply (no_timer_unless_training s Hs) in Hn.
  - apply (pending_matches s Hc).
Qed.

Lemma trainStep_isGenerating (r : Run) (s : State) :
  isGenerating (trainStep rand r s) = isGenerating s.
Proof.
  unfold trainStep.
  destruct (Z.ltb (currentEpoch r + 1) (totalEpochs r)); reflexivity.
Qed.

(** No handler but the continuation of [handleGenerate] clears the busy
    flag. *)
Lemma step_keeps_busy (s : State) (ev : Event) :
  ev <> GenerationSettles -> isGenerating s = true ->
  isGenerating (step rand s ev) = true.
Proof.
  intros Hev Hb. unfold step. destruct (disabled ev s) eqn:Hd; [exact Hb|].
  destruct ev; cbn [handle disabled] in *.
  - unfold handleParamChange. cbn.
    destruct (Status_eqb (status s) completed); exact Hb.
  - unfold handleParamChange. cbn.
    destruct (Status_eqb (status s) completed); exact Hb.
  - unfold startTraining. rewrite trainStep_isGenerating. exact Hb.
  - rewrite Hb in Hd. discriminate.
  - contradiction.
  - unfold fire. destruct (find_timer id s); [| exact Hb].
    rewrite trainStep_isGenerating. exact Hb.
  - unfold receive_modelType. destruct (ModelType_eqb m (modelType s)); [exact Hb|].
    destruct (resetLab_keeps (with_modelType m s)) as (_ & _ & Hg & _).
    rewrite Hg. exact Hb.
Qed.

Lemma run_keeps_busy (evs : list Event) :
  ~ In GenerationSettles evs ->
  forall s, isGenerating s = true -> isGenerating (run rand evs s) = true.
Proof.
  unfold run. induction evs as [| ev evs IH]; intros Hno s Hb; cbn [fold_left].
  - exact Hb.
  - apply IH; [intros H; apply Hno; now right|].
    apply step_keeps_busy; [intros H; apply Hno; now left | exact Hb].
Qed.

(** X9. Requests to the service are single-flight: in every reachable
    state the generate button is busy exactly while a request is in flight,
    and a click on it is then ignored. Only the settling of that request
    clears the busy flag: through any other events, a change of architecture
    included, the flag stays set, for as long as the request stays pending.
    If the request settles, it does so with a result, the result is stored
    and the flag is cleared. *)
Theorem generation_is_single_flight (m0 : ModelType) (evs evs' : list Event)
    (w : Gemini.World) (testInput : string) :
  let s := run rand evs (initial m0) in
  (isGenerating s = true <-> inflight s <> None)
  /\ (inflight s <> None -> step rand s (GenerateClick w testInput) = s)
  /\ (isGenerating s = true -> ~ In GenerationSettles evs' ->
      isGenerating (run rand evs' s) = true)
  /\ (forall x, inflight s = Some x ->
        exists r, x = Gemini.Fulfilled r
          /\ testResult (step rand s GenerationSettles) = Some r)
  /\ isGenerating (step rand s GenerationSettles) = false
  /\ inflight (step rand s GenerationSettles) = None.
Proof.
  intros s.
  pose proof (reachable_coherent rand m0 evs) as Hc. fold s in Hc.
  destruct Hc as [_ _ _ C4 C5].
  split; [exact C4|]. split.
  { intros Hin. apply C4 in Hin. unfold step. cbn [disabled]. now rewrite Hin. }
  split.
  { intros Hb Hno. now apply run_keeps_busy. }
  unfold step. cbn [disabled handle]. unfold generation_settles.
  destruct (inflight s) as [[r | reason] |] eqn:Hi.
  - split; [| split; reflexivity].
    intros x Hx. inversion Hx; subst x. eauto.
  - destruct (C5 _ eq_refl) as [r Hr]. discriminate.
  - split; [intros x Hx; discriminate|]. split; [| exact Hi].
    destruct (isGenerating s); [| reflexivity].
    destruct C4 as [C4 _]. now destruct (C4 eq_refl).
Qed.

Lemma generation_settles_fields (s : State) (r : CoupletResult) :
  inflight s = Some (Gemini.Fulfilled r) ->
  testResult (generation_settles s) = Some r
  /\ status (generation_settles s) = status s
  /\ modelType (generation_settles s) = modelType s
  /\ params (generation_settles s) = params s
  /\ finalLoss (generation_settles s) = finalLoss s.
Proof. intros Hi. unfold generation_settles. rewrite Hi. cbn. auto. Qed.

Lemma settle_after_reset (s : State) (m : ModelType) :
  structural s -> coherent s -> isGenerating s = true -> m <> modelType s ->
  exists r, inflight s = Some (Gemini.Fulfilled r)
    /\ testResult (run rand [ModelTypeChanges m; GenerationSettles] s) = Some r
    /\ status (run rand [ModelTypeChanges m; GenerationSettles] s) = idle
    /\ modelType (run rand [ModelTypeChanges m; GenerationSettles] s) = m
    /\ params (run rand [ModelTypeChanges m; GenerationSettles] s) = params s
    /\ finalLoss (run rand [ModelTypeChanges m; GenerationSettles] s) = 1.0.
Proof.
  intros Hs [_ _ _ C4 C5] Hbusy Hm.
  destruct (inflight s) as [x |] eqn:Hi; [| now apply C4 in Hbusy].
  destruct (C5 _ eq_refl) as [r ->]. exists r. split; [reflexivity|].
  assert (Hstep : step rand s (ModelTypeChanges m) = resetLab (with_modelType m s)).
  { unfold step. cbn [disabled handle]. unfold receive_modelType.
    destruct (ModelType_eqb_spec m (modelType s)); [contradiction | reflexivity]. }
  assert (Hs' : structural (with_modelType m s)) by (apply (structural_same s); auto).
  destruct (resetLab_fields _ Hs') as (Hst & _ & _ & _ & _ & Hf).
  destruct (resetLab_keeps (with_modelType m s)) as (Hp & Hmt & _ & Hin).
  assert (Hin' : inflight (resetLab (with_modelType m s)) = Some (Gemini.Fulfilled r)).
  { rewrite Hin. exact Hi. }
  destruct (generation_settles_fields _ r Hin') as (G1 & G2 & G3 & G4 & G5).
  assert (Hrun : run rand [ModelTypeChanges m; GenerationSettles] s
                 = generation_settles (resetLab (with_modelType m s))).
  { unfold run. cbn [fold_left]. rewrite Hstep. reflexivity. }
  rewrite Hrun, G1, G2, G3, G4, G5, Hst, Hmt, Hp, Hf. repeat split; reflexivity.
Qed.

(** X10. A change of architecture does not touch the parameters and does
    not cancel a request in flight: when that request settles afterwards,
    its result is stored although the status is [idle] again. *)
Theorem request_survives_reset (m0 : ModelType) (evs : list Event) (m : ModelType)
    (Hbusy : isGenerating (run rand evs (initial m0)) = true)
    (Hm : m <> modelType (run rand evs (initial m0))) :
  let s := run rand evs (initial m0) in
  let s' := run rand [ModelTypeChanges m; GenerationSettles] s in
  exists r, inflight s = Some (Gemini.Fulfilled r)
    /\ testResult s' = Some r
    /\ status s' = idle /\ modelType s' = m /\ params s' = params s
    /\ finalLoss s' = 1.0.
Proof.
  apply settle_after_reset; auto.
  - apply reachable_structural.
  - apply reachable_coherent.
Qed.

End CoherenceExtras.

Section CoherenceWitnesses.

Import Lab Invariant Coherence.
Local Open Scope list_scope.

Lemma pending_tick_matches_display_witness :
  let s := run Demo.zeros [StartClick; TimerFires 1] (initial lstm) in
  (List.length (timers s) <= 1)%nat
  /\ (status s = training <-> timers s <> []).
Proof.
  destruct (pending_tick_matches_display Demo.zeros lstm [StartClick; TimerFires 1])
    as (H1 & H2 & _).
  split; [exact H1 | exact H2].
Defined.

Lemma generation_is_single_flight_witness :
  let s := run Demo.zeros
             (Demo.ten_epochs ++ [GenerateClick Failure.no_key_world "x"])
             (initial fnn) in
  isGenerating s = true
  /\ step Demo.zeros s (GenerateClick Failure.answering_world "y") = s
  /\ isGenerating (run Demo.zeros [ModelTypeChanges rnn; StartClick] s) = true
  /\ isGenerating (step Demo.zeros s GenerationSettles) = false.
Proof.
  intros s.
  assert (Hbusy : isGenerating s = true) by reflexivity.
  destruct (generation_is_single_flight Demo.zeros fnn
              (Demo.ten_epochs ++ [GenerateClick Failure.no_key_world "x"])
              [ModelTypeChanges rnn; StartClick]
              Failure.answering_world "y") as (H1 & H2 & H3 & _ & H5 & _).
  split; [exact Hbusy|]. split; [apply H2, H1, Hbusy|]. split; [| exact H5].
  apply H3; [exact Hbusy|]. intros [H | [H | []]]; discriminate.
Defined.

Lemma request_survives_reset_witness :
  let s := run Demo.zeros
             (Demo.ten_epochs ++ [GenerateClick Failure.no_key_world "x"])
             (initial fnn) in
  let s' := run Demo.zeros [ModelTypeChanges rnn; GenerationSettles] s in
  exists r, testResult s' = Some r /\ status s' = idle /\ modelType s' = rnn.
Proof.
  intros s s'.
  assert (Hbusy : isGenerating s = true) by reflexivity.
  assert (Hmt : modelType s = fnn) by reflexivity.
  destruct (request_survives_reset Demo.zeros fnn
              (Demo.ten_epochs ++ [GenerateClick Failure.no_key_world "x"]) rnn)
    as (r & _ & H1 & H2 & H3 & _).
  - exact Hbusy.
  - fold s. rewrite Hmt. discriminate.
  - exists r. split; [exact H1|]. split; [exact H2 | exact H3].
Defined.

End CoherenceWitnesses.

(** ** The progress bar *)

Section ProgressFacts.

Import Lab Invariant Coherence.
Local Open Scope list_scope.

Variable rand : nat -> R.

Lemma initial_progress_ok (m : ModelType) : progress_ok (initial m).
Proof.
  split; cbn; try tauto; try discriminate. unfold valid_epochs. lia.
Qed.

Lemma trainStep_progress_ok (r : Run) (s : State) :
  timers s = [] -> status s = training ->
  valid_epochs (epochs (params s)) ->
  (0 <= currentEpoch r < totalEpochs r)%Z ->
  progress_ok (trainStep rand r s).
Proof.
  intros Ht Hst Hv Hc. unfold trainStep.
  destruct (Z.ltb_spec (currentEpoch r + 1) (totalEpochs r)) as [Hlt | Hge];
    split; cbn; rewrite ?Ht; cbn [app In]; auto; try tauto.
  - rewrite Hst. discriminate.
  - intros t [<- | []]. cbn. split; [lia | reflexivity].
  - intros _. replace (currentEpoch r + 1)%Z with (totalEpochs r) by lia.
    assert (Hn : 0 < IZR (totalEpochs r)) by (apply IZR_lt; lia).
    field. lra.
Qed.

Lemma step_progress_ok (s : State) (ev : Event) :
  valid_event ev -> structural s -> progress_ok s -> progress_ok (step rand s ev).
Proof.
  intros Hv Hs Hp. unfold step.
  destruct (disabled ev s) eqn:Hd; [exact Hp|].
  pose proof Hp as Hp0. destruct Hp as [P1 P2 P3].
  destruct ev; cbn [handle disabled valid_event] in *.
  - destruct (Status_eqb_spec (status s) training) as [| Hne]; [discriminate|].
    pose proof (no_timer_unless_training s Hs Hne) as Ht.
    unfold handleParamChange. cbn.
    destruct (Status_eqb_spec (status s) completed); split; cbn;
      rewrite ?Ht; cbn; auto; try discriminate; try tauto.
  - destruct (Status_eqb_spec (status s) training) as [| Hne]; [discriminate|].
    pose proof (no_timer_unless_training s Hs Hne) as Ht.
    unfold handleParamChange. cbn.
    destruct (Status_eqb_spec (status s) completed); split; cbn;
      rewrite ?Ht; cbn; auto; try discriminate; try tauto.
  - destruct (Status_eqb_spec (status s) training) as [| Hne]; [discriminate|].
    pose proof (no_timer_unless_training s Hs Hne) as Ht.
    unfold startTraining. apply trainStep_progress_ok; cbn; auto.
    unfold valid_epochs in P1. lia.
  - unfold handleGenerate. destruct (blank testInput); [exact Hp0|].
    split; cbn; auto.
  - unfold generation_settles.
    destruct (inflight s) as [[result | reason] |]; [| | exact Hp0];
      split; cbn; auto.
  - unfold fire, find_timer.
    destruct (find (fun t => Nat.eqb (timer_id t) id) (timers s)) as [t |] eqn:Hf;
      [| exact Hp0].
    apply find_some in Hf. destruct Hf as [Hin Hid].
    apply Nat.eqb_eq in Hid.
    destruct (timer_is_referenced s Hs t Hin) as [Href _].
    rewrite Hid in Href.
    destruct (P3 t Hin) as [Hc _].
    apply trainStep_progress_ok; cbn; auto; try lia.
    + now apply clear_referenced.
    + destruct (status_training_dec s) as [Htr | Hn']; [assumption|].
      rewrite (no_timer_unless_training s Hs Hn') in Hin. destruct Hin.
  - unfold receive_modelType.
    destruct (ModelType_eqb m (modelType s)); [exact Hp0|].
    assert (Hs' : structural (with_modelType m s)) by (apply (structural_same s); auto).
    destruct (resetLab_fields _ Hs') as (Hst & _ & Ht & _).
    destruct (resetLab_keeps (with_modelType m s)) as (Hpar & _).
    split; rewrite ?Hst, ?Ht, ?Hpar; cbn; auto; try discriminate; try tauto.
Qed.

Lemma reachable_progress_ok (m0 : ModelType) (evs : list Event) :
  Forall valid_event evs -> progress_ok (run rand evs (initial m0)).
Proof.
  intros Hv.
  assert (H : forall s, structural s -> progress_ok s ->
                structural (run rand evs s) /\ progress_ok (run rand evs s)).
  { unfold run. induction Hv as [| ev evs' Hev Hevs IH]; intros s Hs Hp;
      cbn [fold_left].
    - auto.
    - apply IH; [now apply step_structural | now apply step_progress_ok]. }
  apply H; [apply initial_structural | apply initial_progress_ok].
Qed.

(** X11. In every state reachable with the values the controls offer, the
    progress value is 100 when the status is [completed] and lies strictly
    between 0 and 100 while the status is [training]. *)
Theorem progress_tracks_status (m0 : ModelType) (evs : list Event)
    (Hv : Forall valid_event evs) :
  let s := run rand evs (initial m0) in
  (status s = completed -> progress s = 100)
  /\ (status s = training -> 0 < progress s < 100).
Proof.
  intros s.
  pose proof (reachable_progress_ok m0 evs Hv) as Hp. fold s in Hp.
  pose proof (reachable_coherent rand m0 evs) as Hc. fold s in Hc.
  split; [apply (progress_when_completed s Hp)|].
  intros Htr.
  pose proof (pending_while_training s Hc Htr) as Hne.
  destruct (timers s) as [| t ts] eqn:Ht; [contradiction|].
  destruct (progress_when_pending s Hp t) as [Hb Hpr]; [rewrite Ht; now left|].
  rewrite Hpr.
  assert (H0 : 0 < IZR (currentEpoch (timer_run t))) by (apply IZR_lt; lia).
  assert (H1 : IZR (currentEpoch (timer_run t)) < IZR (totalEpochs (timer_run t)))
    by (apply IZR_lt; lia).
  assert (Hq : 0 < IZR (currentEpoch (timer_run t)) / IZR (totalEpochs (timer_run t)) < 1).
  { split.
    - apply Rdiv_lt_0_compat; lra.
    - apply (Rmult_lt_reg_r (IZR (totalEpochs (timer_run t)))); [lra|].
      unfold Rdiv. rewrite Rmult_assoc, Rinv_l by lra. lra. }
  lra.
Qed.

End ProgressFacts.

Section ProgressWitness.

Import Lab.

Lemma progress_tracks_status_witness :
  let s := run Demo.zeros Demo.ten_epochs (initial fnn) in
  status s = completed /\ progress s = 100.
Proof.
  intros s.
  assert (Hst : status s = completed) by reflexivity.
  destruct (progress_tracks_status Demo.zeros fnn Demo.ten_epochs) as [H _].
  - unfold Demo.ten_epochs.
    constructor; [cbn; unfold valid_epochs; lia|].
    repeat (constructor; [exact I|]). constructor.
  - split; [exact Hst | exact (H Hst)].
Defined.

End ProgressWitness.

(** ** More on the samples of a run *)

Section SampleExtras.

Import Lab Trace Invariant.
Local Open Scope list_scope.

(** X12. In every state reachable with a random source in [[0, 1)] and
    the values the controls offer, the recorded loss and the recorded
    accuracy of each emitted sample are whole numbers of thousandths between
    0 and 1, and in thousandths they add up to 1000 give or take one. *)
Theorem samples_are_whole_thousandths (rand : nat -> R) (m0 : ModelType)
    (evs : list Event) (m : TrainingMetric)
    (Hu : uniform rand) (Hv : Forall valid_event evs)
    (Hin : In m (emitted (run rand evs (initial m0)))) :
  exists n1 n2 : Z,
    loss m = IZR n1 / 1000 /\ accuracy m = IZR n2 / 1000
    /\ (0 <= n1 <= 1000)%Z /\ (0 <= n2 <= 1000)%Z
    /\ (999 <= n1 + n2 <= 1001)%Z.
Proof.
  pose proof (reachable_numeric rand m0 evs Hu Hv) as Hn.
  destruct (samples_from_ticks _ Hn m Hin)
    as (r & u1 & u2 & Hg & Hu1 & Hu2 & He & Hl & Ha).
  destruct (tick_loss_valid r u1 u2 Hg Hu1 Hu2) as [Hc _].
  destruct (rounding_pair _ Hc) as (Hb1 & Hb2 & Hsum). cbv zeta in Hb1, Hb2, Hsum.
  exists (Num.nearest_milli (tick_loss r u1 u2)),
         (Num.nearest_milli (1 - tick_loss r u1 u2)).
  rewrite Hl, Ha, !toFixed3_nonneg by lra.
  repeat split; try reflexivity; lia.
Qed.

Lemma samples_are_whole_thousandths_witness :
  exists n1 n2 : Z,
    loss Demo.first_sample = IZR n1 / 1000
    /\ accuracy Demo.first_sample = IZR n2 / 1000
    /\ (0 <= n1 <= 1000)%Z /\ (0 <= n2 <= 1000)%Z
    /\ (999 <= n1 + n2 <= 1001)%Z.
Proof.
  apply (samples_are_whole_thousandths Demo.zeros fnn [StartClick] Demo.first_sample).
  - intros k. unfold Demo.zeros. lra.
  - repeat constructor.
  - left. reflexivity.
Defined.

Section TwoArchitectures.

Variable rand : nat -> R.
Variable s0 : State.
Variables m1 m2 : ModelType.
Hypothesis m1_not_rnn : m1 <> rnn.
Hypothesis m2_not_rnn : m2 <> rnn.

Lemma not_rnn_stable (s : State) (k : nat) :
  modelType s <> rnn -> unstable (closure rand s k) = false.
Proof.
  intros Hm. unfold unstable. cbn [run_modelType closure].
  destruct (ModelType_eqb_spec (modelType s) rnn); [contradiction | reflexivity].
Qed.

Lemma draws_before_not_rnn (s : State) (k : nat) :
  modelType s <> rnn -> draws_before rand s k = (draws s + 1 + k)%nat.
Proof.
  intros Hm. induction k as [| k IH]; cbn [draws_before]; [lia|].
  rewrite not_rnn_stable by assumption. lia.
Qed.

Lemma loss_at_two_architectures (k : nat) :
  loss_at rand (with_modelType m1 s0) k = loss_at rand (with_modelType m2 s0) k.
Proof.
  unfold loss_at.
  rewrite !draws_before_not_rnn by (cbn; assumption).
  unfold tick_loss. rewrite !not_rnn_stable by (cbn; assumption).
  reflexivity.
Qed.

Lemma samples_two_architectures (k : nat) :
  samples rand (with_modelType m1 s0) k = samples rand (with_modelType m2 s0) k.
Proof.
  unfold samples. apply map_ext. intros i. unfold sample_at.
  now rewrite loss_at_two_architectures.
Qed.

End TwoArchitectures.

(** X13. The feed-forward and the LSTM architecture give the same
    training curve: started in the same reachable state with the same
    random source, runs for two architectures other than the recurrent one
    emit the same samples, hold the same history and record the same final
    loss after every number of ticks. *)
Theorem curve_ignores_non_recurrent_architecture (rand : nat -> R)
    (m0 m1 m2 : ModelType) (evs : list Event) (k : nat)
    (H1 : m1 <> rnn) (H2 : m2 <> rnn)
    (Hs : status (run rand evs (initial m0)) <> training)
    (Hk : (1 <= Z.of_nat k <= epochs (params (run rand evs (initial m0))))%Z) :
  let s0 := run rand evs (initial m0) in
  let a := after_ticks rand (with_modelType m1 s0) k in
  let b := after_ticks rand (with_modelType m2 s0) k in
  emitted a = emitted b /\ metrics a = metrics b
  /\ finalLoss a = finalLoss b /\ status a = status b.
Proof.
  intros s0 a b. subst a b.
  pose proof (reachable_structural rand m0 evs) as Hst. fold s0 in Hst.
  assert (Ht : timers s0 = []) by (apply (no_timer_unless_training s0); assumption).
  fold s0 in Hs, Hk.
  destruct (after_ticks_trace rand (with_modelType m1 s0) Hs Ht k) as [Ra Fa]; [lia|].
  destruct (after_ticks_trace rand (with_modelType m2 s0) Hs Ht k) as [Rb Fb]; [lia|].
  cbn [params with_modelType] in Ra, Fa, Rb, Fb.
  pose proof (samples_two_architectures rand s0 m1 m2 H1 H2 k) as Hsm.
  destruct (Z.eq_dec (Z.of_nat k) (epochs (params s0))) as [Heq | Hne].
  - destruct Fa as (Ea & Ma & _ & Sa & La & _); [now left|].
    destruct Fb as (Eb & Mb & _ & Sb & Lb & _); [now left|].
    rewrite Ea, Eb, Ma, Mb, Sa, Sb, La, Lb, Hsm.
    rewrite (loss_at_two_architectures rand s0 m1 m2 H1 H2). auto.
  - destruct Ra as (Ea & Ma & _ & Sa & La & _); [lia|].
    destruct Rb as (Eb & Mb & _ & Sb & Lb & _); [lia|].
    rewrite Ea, Eb, Ma, Mb, Sa, Sb, La, Lb, Hsm. auto.
Qed.

Lemma curve_ignores_non_recurrent_architecture_witness :
  let s0 := run Demo.zeros [ChangeEpochs 10%Z] (initial rnn) in
  emitted (after_ticks Demo.zeros (with_modelType fnn s0) 10)
  = emitted (after_ticks Demo.zeros (with_modelType lstm s0) 10).
Proof.
  destruct (curve_ignores_non_recurrent_architecture Demo.zeros rnn fnn lstm
              [ChangeEpochs 10%Z] 10) as (H & _).
  - discriminate.
  - discriminate.
  - discriminate.
  - cbn. lia.
  - exact H.
Defined.

(** X14. A run uses up one value of the random source at its start and
    one per tick, plus one more per tick when the recurrent instability
    applies: after [k] ticks between [k + 1] and [2 k + 1] values are used,
    and exactly [k + 1] when the architecture is not the recurrent one. *)
Theorem random_values_used (rand : nat -> R) (m0 : ModelType)
    (evs : list Event) (k : nat)
    (Hs : status (run rand evs (initial m0)) <> training)
    (Hk : (1 <= Z.of_nat k <= epochs (params (run rand evs (initial m0))))%Z) :
  let s0 := run rand evs (initial m0) in
  let s := after_ticks rand s0 k in
  (draws s0 + k + 1 <= draws s <= draws s0 + 2 * k + 1)%nat
  /\ (modelType s0 <> rnn -> draws s = (draws s0 + k + 1)%nat).
Proof.
  intros s0 s. subst s.
  pose proof (reachable_structural rand m0 evs) as Hst. fold s0 in Hst.
  assert (Ht : timers s0 = []) by (apply (no_timer_unless_training s0); assumption).
  fold s0 in Hs, Hk.
  assert (Hd : draws (after_ticks rand s0 k) = draws_before rand s0 k).
  { destruct (after_ticks_trace rand s0 Hs Ht k) as [Hrun Hfin]; [lia|].
    destruct (Z.eq_dec (Z.of_nat k) (epochs (params s0))) as [Heq | Hne].
    - destruct Hfin as (_ & _ & Hd & _); [now left | exact Hd].
    - destruct Hrun as (_ & _ & Hd & _); [lia | exact Hd]. }
  rewrite Hd. split.
  - clear. induction k as [| j IH]; cbn [draws_before]; [lia|].
    destruct (unstable (closure rand s0 j)); lia.
  - intros Hm. rewrite draws_before_not_rnn by assumption. lia.
Qed.

Lemma random_values_used_witness :
  let s0 := run Demo.zeros [ChangeEpochs 10%Z] (initial lstm) in
  draws (after_ticks Demo.zeros s0 10) = 11%nat.
Proof.
  destruct (random_values_used Demo.zeros lstm [ChangeEpochs 10%Z] 10) as (_ & H).
  - discriminate.
  - cbn. lia.
  - apply H. discriminate.
Defined.

End SampleExtras.

(** ** The learning-rate regimes *)

Section RegimeFacts.

Import Lab Trace Invariant.
Local Open Scope list_scope.

Lemma exp_1_lower : 2.25 <= exp 1.
Proof.
  pose proof (exp_ineq1_le 0.5) as H.
  assert (E : exp 1 = exp 0.5 * exp 0.5) by (rewrite <- exp_plus; f_equal; lra).
  rewrite E. nra.
Qed.

Lemma exp_4_lower : 25 <= exp 4.
Proof.
  pose proof exp_1_lower as H1.
  assert (E2 : exp 2 = exp 1 * exp 1) by (rewrite <- exp_plus; f_equal; lra).
  assert (E4 : exp 4 = exp 2 * exp 2) by (rewrite <- exp_plus; f_equal; lra).
  assert (H2 : 5 <= exp 2) by (rewrite E2; nra).
  rewrite E4. nra.
Qed.

Lemma exp_minus_4_upper : exp (- (4)) <= / 25.
Proof.
  rewrite exp_Ropp. pose proof exp_4_lower.
  apply Rinv_le_contravar; lra.
Qed.

Lemma exp_minus_5_upper : exp (- (5)) <= / 25.
Proof.
  rewrite exp_Ropp. pose proof exp_4_lower as H4.
  assert (E5 : exp 5 = exp 4 * exp 1) by (rewrite <- exp_plus; f_equal; lra).
  pose proof exp_1_lower as H1.
  assert (H5 : 25 <= exp 5) by (rewrite E5; nra).
  apply Rinv_le_contravar; lra.
Qed.

Lemma exp_minus_5_2_lower : 0.069 <= exp (- (2.5)).
Proof.
  set (a := exp (- (/ 8))).
  assert (Ha : 7 / 8 <= a) by (unfold a; pose proof (exp_ineq1_le (- (/ 8))); lra).
  assert (E4 : exp (- (/ 4)) = a * a)
    by (unfold a; rewrite <- exp_plus; f_equal; lra).
  assert (E2 : exp (- (/ 2)) = exp (- (/ 4)) * exp (- (/ 4)))
    by (rewrite <- exp_plus; f_equal; lra).
  assert (E1 : exp (- (1)) = exp (- (/ 2)) * exp (- (/ 2)))
    by (rewrite <- exp_plus; f_equal; lra).
  assert (E0 : exp (- (2)) = exp (- (1)) * exp (- (1)))
    by (rewrite <- exp_plus; f_equal; lra).
  assert (E : exp (- (2.5)) = exp (- (2)) * exp (- (/ 2)))
    by (rewrite <- exp_plus; f_equal; lra).
  assert (H4 : 49 / 64 <= exp (- (/ 4))) by (rewrite E4; nra).
  assert (H2 : 0.586 <= exp (- (/ 2))) by (rewrite E2; nra).
  assert (H1 : 0.343 <= exp (- (1))) by (rewrite E1; nra).
  assert (H0 : 0.1176 <= exp (- (2))) by (rewrite E0; nra).
  rewrite E. nra.
Qed.

(** The last tick of a run: its loss by learning rate. *)
Lemma last_tick_loss (r : Run) (u1 u2 : R) :
  good_run r -> (currentEpoch r + 1 = totalEpochs r)%Z ->
  0 <= u1 < 1 -> 0 <= u2 < 1 ->
  (learningRate (run_params r) = 0.1 -> 0.2 < tick_loss r u1 u2)
  /\ (learningRate (run_params r) <> 0.1 -> tick_loss r u1 u2 < 0.25)
  /\ (learningRate (run_params r) <> 0.1 -> run_modelType r <> rnn ->
      tick_loss r u1 u2 < 0.2).
Proof.
  intros Hg Hlast Hu1 Hu2.
  assert (Hpr : progressRatio r = 1).
  { unfold progressRatio. rewrite Hlast.
    destruct Hg as (_ & _ & _ & _ & Hc).
    assert (Hn : 0 < IZR (totalEpochs r)) by (apply IZR_lt; lia).
    field. lra. }
  assert (Hp : 0.5 < progressRatio r) by (rewrite Hpr; lra).
  pose proof (back_half_raw r u1 Hg Hu1 Hp) as Hraw. cbv zeta in Hraw.
  assert (Hrnn : run_modelType r <> rnn -> unstable r = false).
  { intros Hm. unfold unstable.
    destruct (ModelType_eqb_spec (run_modelType r) rnn); [contradiction | reflexivity]. }
  destruct Hg as ((_ & Hlr) & _ & Hf & (u & Hu0 & HT) & _).
  unfold tick_loss.
  fold (Num.clamp01 (targetLoss r
          + exp (- progressRatio r * 5 * lrFactor r) * (1 - targetLoss r)
          + (u1 - 0.5) * (learningRate (run_params r) * 2))).
  rewrite clamp01_id by lra.
  rewrite Hpr in *. rewrite Hf, HT in *.
  unfold lrFactor_of, targetLoss_of in *.
  pose proof exp_minus_5_2_lower as L25.
  pose proof exp_minus_4_upper as U4.
  pose proof exp_minus_5_upper as U5.
  pose proof (exp_pos (- (4))) as P4.
  pose proof (exp_pos (- (5))) as P5.
  destruct Hlr as [H | [H | H]]; rewrite H in *.
  - destruct (Req_dec_T 0.1 0.01); [lra|]. destruct (Rlt_dec 0.05 0.1); [| lra].
    replace (- (1) * 5 * 0.5) with (- (2.5)) in * by lra.
    assert (Hd : 0.069 * (1 - (0.05 + u * 0.1 + 0.2))
                 <= exp (- (2.5)) * (1 - (0.05 + u * 0.1 + 0.2)))
      by (apply Rmult_le_compat_r; lra).
    repeat split; try (intros; lra).
    intros _. destruct (unstable r); lra.
  - destruct (Req_dec_T 0.01 0.01); [| lra]. destruct (Rlt_dec 0.05 0.01); [lra|].
    replace (- (1) * 5 * 1.0) with (- (5)) in * by lra.
    assert (Hd : exp (- (5)) * (1 - (0.05 + u * 0.1 + 0))
                 <= / 25 * (1 - (0.05 + u * 0.1 + 0)))
      by (apply Rmult_le_compat_r; lra).
    repeat split; try (intros; lra).
    + intros _. destruct (unstable r); lra.
    + intros _ Hm. rewrite (Hrnn Hm). lra.
  - destruct (Req_dec_T 0.001 0.01); [lra|]. destruct (Rlt_dec 0.05 0.001); [lra|].
    replace (- (1) * 5 * 0.8) with (- (4)) in * by lra.
    assert (Hd : exp (- (4)) * (1 - (0.05 + u * 0.1 + 0))
                 <= / 25 * (1 - (0.05 + u * 0.1 + 0)))
      by (apply Rmult_le_compat_r; lra).
    repeat split; try (intros; lra).
    + intros _. destruct (unstable r); lra.
    + intros _ Hm. rewrite (Hrnn Hm). lra.
Qed.

(** X15. The learning rate decides how the service is told the model
    trained. After a completed run with valid parameters the final loss is
    above 0.2 when the rate is 0.1, so the prompt never says "converged";
    with the rates 0.01 and 0.001 it is below 0.25, so the prompt never says
    "underfitted", and below 0.2, so the prompt says "converged", when the
    architecture is not the recurrent one. *)
Theorem final_loss_by_learning_rate (rand : nat -> R) (m0 : ModelType)
    (evs : list Event)
    (Hu : uniform rand)
    (Hs : status (run rand evs (initial m0)) <> training)
    (Hp : valid_params (params (run rand evs (initial m0)))) :
  let s0 := run rand evs (initial m0) in
  let s := after_ticks rand s0 (Z.to_nat (epochs (params s0))) in
  let lr := learningRate (params s0) in
  status s = completed
  /\ (lr = 0.1 -> 0.2 < finalLoss s /\ Gemini.isConverged (finalLoss s) = false)
  /\ (lr <> 0.1 -> finalLoss s < 0.25 /\ Gemini.isUnderfitted (finalLoss s) = false)
  /\ (lr <> 0.1 -> modelType s0 <> rnn ->
      finalLoss s < 0.2 /\ Gemini.isConverged (finalLoss s) = true).
Proof.
  intros s0 s lr. subst s lr.
  pose proof (reachable_structural rand m0 evs) as Hst. fold s0 in Hst.
  assert (Ht : timers s0 = []) by (apply (no_timer_unless_training s0); assumption).
  fold s0 in Hs, Hp. destruct Hp as [[He1 He2] Hlr].
  set (n := Z.to_nat (epochs (params s0))).
  assert (Hn : Z.of_nat n = epochs (params s0)) by (unfold n; lia).
  destruct (after_ticks_trace rand s0 Hs Ht n) as [_ Hfin]; [lia|].
  destruct Hfin as (_ & _ & _ & Hc & Hf & _); [now left|].
  split; [exact Hc|]. rewrite Hf. unfold loss_at.
  assert (Hg : good_run (closure rand s0 (n - 1))).
  { repeat split; cbn; auto; try lia.
    exists (rand (draws s0)). split; [apply Hu | reflexivity]. }
  assert (Hlast : (currentEpoch (closure rand s0 (n - 1)) + 1
                   = totalEpochs (closure rand s0 (n - 1)))%Z) by (cbn; lia).
  destruct (last_tick_loss _ _ _ Hg Hlast
              (Hu (draws_before rand s0 (n - 1)))
              (Hu (S (draws_before rand s0 (n - 1))))) as (A & B & C).
  cbn [run_params run_modelType closure] in A, B, C.
  unfold Gemini.isConverged, Gemini.isUnderfitted.
  split; [| split].
  - intros H. specialize (A H). split; [exact A|].
    destruct (Rlt_dec _ 0.2); [lra | reflexivity].
  - intros H. specialize (B H). split; [exact B|].
    destruct (Rlt_dec 0.4 _); [lra | reflexivity].
  - intros H Hm. specialize (C H Hm). split; [exact C|].
    destruct (Rlt_dec _ 0.2); [reflexivity | lra].
Qed.

Lemma final_loss_by_learning_rate_witness :
  let s0 := run Demo.zeros [ChangeLearningRate 0.1] (initial lstm) in
  let s := after_ticks Demo.zeros s0 50 in
  status s = completed /\ 0.2 < finalLoss s.
Proof.
  destruct (final_loss_by_learning_rate Demo.zeros lstm [ChangeLearningRate 0.1])
    as (H1 & H2 & _).
  - intros k. unfold Demo.zeros. lra.
  - discriminate.
  - split; cbn; [unfold valid_epochs; lia | left; reflexivity].
  - split; [exact H1 | apply H2; reflexivity].
Defined.

End RegimeFacts.

(** ** The decay of the loss, and the order of parameter changes *)

Section DecayFacts.

Import Lab Invariant.
Local Open Scope list_scope.

(** X16. In a valid run of an architecture other than the recurrent one,
    the same noise draw gives a tick a loss no larger than it gives the tick
    before, and a smaller one unless the earlier loss was clamped to 1: the
    curve under the noise decays from epoch to epoch. *)
Theorem loss_decays_for_fixed_noise (r : Run) (u1 u2 u2' : R)
    (Hg : good_run r) (Hnext : (currentEpoch r + 1 < totalEpochs r)%Z)
    (Hm : run_modelType r <> rnn) (Hu1 : 0 <= u1 < 1) :
  let r' := mkRun (currentEpoch r + 1) (totalEpochs r) (lrFactor r) (targetLoss r)
                  (run_params r) (run_modelType r) in
  tick_loss r' u1 u2' <= tick_loss r u1 u2
  /\ (tick_loss r u1 u2 < 1 -> tick_loss r' u1 u2' < tick_loss r u1 u2).
Proof.
  intros r'.
  assert (Hs : unstable r = false).
  { unfold unstable.
    destruct (ModelType_eqb_spec (run_modelType r) rnn); [contradiction | reflexivity]. }
  assert (Hs' : unstable r' = false).
  { unfold unstable. cbn [run_modelType r'].
    destruct (ModelType_eqb_spec (run_modelType r) rnn); [contradiction | reflexivity]. }
  unfold tick_loss. rewrite Hs, Hs'. cbn [lrFactor targetLoss run_params r'].
  destruct Hg as ((_ & Hlr) & _ & Hf & (u & Hu0 & HT) & Hc).
  pose proof (lrFactor_of_valid _ Hlr) as Hfb. rewrite <- Hf in Hfb.
  pose proof (targetLoss_of_valid _ u Hlr Hu0) as HTb. rewrite <- HT in HTb.
  assert (Hn : 0 < IZR (totalEpochs r)) by (apply IZR_lt; lia).
  assert (Hpp : progressRatio r < progressRatio r').
  { unfold progressRatio. cbn [currentEpoch totalEpochs r'].
    apply Rmult_lt_compat_r; [now apply Rinv_0_lt_compat|].
    apply IZR_lt. lia. }
  assert (Hexp : exp (- progressRatio r' * 5 * lrFactor r)
                 < exp (- progressRatio r * 5 * lrFactor r)).
  { apply exp_increasing. nra. }
  assert (Hpos : 0 < exp (- progressRatio r' * 5 * lrFactor r)) by apply exp_pos.
  assert (Hlr' : 0.001 <= learningRate (run_params r) <= 0.1)
    by (destruct Hlr as [H | [H | H]]; rewrite H; lra).
  set (d := exp (- progressRatio r * 5 * lrFactor r)) in *.
  set (d' := exp (- progressRatio r' * 5 * lrFactor r)) in *.
  assert (Hprod : d' * (1 - targetLoss r) < d * (1 - targetLoss r))
    by (apply Rmult_lt_compat_r; lra).
  assert (Hprod' : 0 < d' * (1 - targetLoss r))
    by (apply Rmult_lt_0_compat; lra).
  assert (Hnoise : - learningRate (run_params r)
                   <= (u1 - 0.5) * (learningRate (run_params r) * 2)) by nra.
  unfold Rmax, Rmin.
  split; [| intros Hlt; revert Hlt];
    repeat (destruct (Rle_dec _ _)); try lra.
Qed.

Lemma loss_decays_for_fixed_noise_witness :
  tick_loss (mkRun 1 50 (lrFactor Demo.first_run) (targetLoss Demo.first_run)
               (run_params Demo.first_run) (run_modelType Demo.first_run)) 0.5 0
  <= tick_loss Demo.first_run 0.5 0.
Proof.
  apply (loss_decays_for_fixed_noise Demo.first_run 0.5 0 0).
  - split; [split; [unfold valid_epochs; cbn; lia | right; left; reflexivity]|].
    split; [reflexivity|]. split; [reflexivity|].
    split; [exists 0; split; [lra | reflexivity]|]. cbn. lia.
  - cbn. lia.
  - discriminate.
  - lra.
Defined.

Variable rand : nat -> R.

(** X17. The two parameter controls do not interfere: changing the epoch
    count and then the learning rate leaves the same state as changing them
    in the other order, with both new values in the parameters, and of two
    changes of the epoch count the later one wins. *)
Theorem parameter_changes_commute (s : State) (e e' : Z) (lr : R) :
  step rand (step rand s (ChangeEpochs e)) (ChangeLearningRate lr)
  = step rand (step rand s (ChangeLearningRate lr)) (ChangeEpochs e)
  /\ (status s <> training ->
      params (step rand (step rand s (ChangeEpochs e)) (ChangeLearningRate lr))
      = {| epochs := e; learningRate := lr |})
  /\ step rand (step rand s (ChangeEpochs e')) (ChangeEpochs e)
     = step rand s (ChangeEpochs e).
Proof.
  unfold step. cbn [disabled handle]. unfold handleParamChange, merge_params.
  destruct (status s) eqn:E; cbn; rewrite ?E; cbn; rewrite ?E; cbn;
    repeat split; try reflexivity; try (intros H; now destruct H).
Qed.

End DecayFacts.

Section DecayWitness.

Import Lab.

Lemma parameter_changes_commute_witness :
  params (step Demo.zeros (step Demo.zeros (initial fnn) (ChangeEpochs 30))
            (ChangeLearningRate 0.1))
  = {| epochs := 30; learningRate := 0.1 |}.
Proof.
  destruct (parameter_changes_commute Demo.zeros (initial fnn) 30 20 0.1)
    as (_ & H & _).
  apply H. discriminate.
Defined.

End DecayWitness.

(** ** The page: stepper and training lab together *)

Section PageFacts.

Import Lab Invariant.
Local Open Scope list_scope.

Variable rand : nat -> R.

Lemma trainStep_modelType (r : Run) (s : State) :
  modelType (trainStep rand r s) = modelType s.
Proof.
  unfold trainStep.
  destruct (Z.ltb (currentEpoch r + 1) (totalEpochs r)); reflexivity.
Qed.

Lemma step_keeps_modelType (s : State) (ev : Event) :
  (forall m, ev <> ModelTypeChanges m) ->
  modelType (step rand s ev) = modelType s.
Proof.
  intros Hev. unfold step. destruct (disabled ev s); [reflexivity|].
  destruct ev; cbn [handle].
  - unfold handleParamChange. cbn.
    destruct (Status_eqb (status s) completed); reflexivity.
  - unfold handleParamChange. cbn.
    destruct (Status_eqb (status s) completed); reflexivity.
  - unfold startTraining. now rewrite trainStep_modelType.
  - unfold handleGenerate. destruct (blank testInput); reflexivity.
  - unfold generation_settles.
    destruct (inflight s) as [[result | reason] |]; reflexivity.
  - unfold fire. destruct (find_timer id s); [| reflexivity].
    now rewrite trainStep_modelType.
  - now destruct (Hev m).
Qed.

(** What holds of every page state. *)
Lemma page_invariant (evs : list Page.Event) :
  let p := Page.run rand evs Page.initial in
  modelType (Page.lab p) = Stepper.activeTab (Page.app p)
  /\ Stepper.in_bounds (Page.app p)
  /\ structural (Page.lab p).
Proof.
  cbv zeta.
  assert (H : forall p,
            modelType (Page.lab p) = Stepper.activeTab (Page.app p)
            /\ Stepper.in_bounds (Page.app p) /\ structural (Page.lab p) ->
            modelType (Page.lab (Page.run rand evs p))
              = Stepper.activeTab (Page.app (Page.run rand evs p))
            /\ Stepper.in_bounds (Page.app (Page.run rand evs p))
            /\ structural (Page.lab (Page.run rand evs p))).
  { unfold Page.run. induction evs as [| ev evs' IH]; intros p Hp; cbn [fold_left].
    - exact Hp.
    - apply IH. destruct Hp as (Hm & Hb & Hs).
      destruct ev as [type | | | ev]; cbn [Page.step Page.app Page.lab].
      + split; [| split].
        * unfold receive_modelType. cbn.
          destruct (ModelType_eqb_spec type (modelType (Page.lab p))) as [-> | Hne].
          -- reflexivity.
          -- destruct (resetLab_keeps (with_modelType type (Page.lab p)))
               as (_ & Hmt & _). exact Hmt.
        * apply handleTabChange_in_bounds.
        * apply (step_structural rand (Page.lab p) (ModelTypeChanges type) Hs).
      + split; [| split]; auto.
        * rewrite Hm. unfold Stepper.next, Stepper.click.
          destruct (Stepper.next_disabled (Page.app p)); reflexivity.
        * now apply next_in_bounds.
      + split; [| split]; auto.
        * rewrite Hm. unfold Stepper.previous, Stepper.click.
          destruct (Stepper.previous_disabled (Page.app p)); reflexivity.
        * now apply previous_in_bounds.
      + destruct ev; cbn [Page.app Page.lab];
          try (split; [| split]; assumption);
          (split; [| split];
           [rewrite step_keeps_modelType by (intros m0; discriminate); exact Hm
           | exact Hb
           | now apply step_structural]). }
  apply H. split; [reflexivity|]. split; [apply initial_in_bounds|].
  apply initial_structural.
Qed.

(** X18. On the page the training lab always works for the architecture
    whose steps are on display, and the step index is valid. Selecting
    another architecture puts the stepper on step 0 and resets the lab to
    [idle] with an empty history and no pending tick, keeping the
    parameters; selecting the architecture already shown only puts the
    stepper back on step 0 and leaves the lab, a run under way included,
    as it is. *)
Theorem tab_selection_keeps_page_consistent (evs : list Page.Event)
    (type : ModelType) :
  let p := Page.run rand evs Page.initial in
  let p' := Page.step rand p (Page.SelectTab type) in
  modelType (Page.lab p) = Stepper.activeTab (Page.app p)
  /\ (exists d, Stepper.currentStep (Page.app p) = Some d)
  /\ Stepper.stepIndex (Page.app p') = 0%Z
  /\ modelType (Page.lab p') = type
  /\ (type <> Stepper.activeTab (Page.app p) ->
      status (Page.lab p') = idle /\ metrics (Page.lab p') = []
      /\ timers (Page.lab p') = [] /\ params (Page.lab p') = params (Page.lab p))
  /\ (type = Stepper.activeTab (Page.app p) -> Page.lab p' = Page.lab p).
Proof.
  intros p p'. subst p'.
  destruct (page_invariant evs) as (Hm & Hb & Hs). fold p in Hm, Hb, Hs.
  cbn [Page.step Page.app Page.lab].
  split; [exact Hm|]. split.
  { unfold Stepper.in_bounds, Stepper.steps in Hb.
    unfold Stepper.currentStep, Stepper.steps.
    destruct (Z.ltb_spec (Stepper.stepIndex (Page.app p)) 0); [lia|].
    destruct (nth_error (Stepper.STEPS_DATA (Stepper.activeTab (Page.app p)))
                (Z.to_nat (Stepper.stepIndex (Page.app p)))) eqn:E; [eauto|].
    apply nth_error_None in E. lia. }
  split; [reflexivity|].
  unfold receive_modelType. rewrite <- Hm.
  destruct (ModelType_eqb_spec type (modelType (Page.lab p))) as [Heq | Hne].
  - split; [now symmetry|]. split; [intros H; contradiction | reflexivity].
  - assert (Hs' : structural (with_modelType type (Page.lab p)))
      by (apply (structural_same (Page.lab p)); auto).
    destruct (resetLab_fields _ Hs') as (Hst & Hme & Ht & _).
    destruct (resetLab_keeps (with_modelType type (Page.lab p))) as (Hp & Hmt & _).
    split; [exact Hmt|]. split; [| intros H; contradiction].
    intros _. rewrite Hst, Hme, Ht, Hp. auto.
Qed.

End PageFacts.

Section PageWitness.

Import Lab.

Lemma tab_selection_keeps_page_consistent_witness :
  let p := Page.run Demo.zeros [Page.ClickNext; Page.InLab StartClick] Page.initial in
  let p' := Page.step Demo.zeros p (Page.SelectTab lstm) in
  status (Page.lab p') = idle /\ timers (Page.lab p') = [].
Proof.
  intros p p'.
  assert (Hne : lstm <> Stepper.activeTab (Page.app p)) by discriminate.
  destruct (tab_selection_keeps_page_consistent Demo.zeros
              [Page.ClickNext; Page.InLab StartClick] lstm)
    as (_ & _ & _ & _ & H & _).
  destruct (H Hne) as (H1 & _ & H3 & _).
  split; [exact H1 | exact H3].
Defined.

End PageWitness.
